(** * IFEval-pp: the constraint checkers and the conflict-table utility

    A shallow embedding of [src/instructions.py] and
    [src/instructions_registry.py], and the properties of the checkers that
    the specification states.

    Conventions of the embedding.
    - A Python [str] is a [list ascii]: the sequence of its code points,
      restricted to U+0000..U+00FF.  The built-in methods ([strip], [lower],
      [split], [isupper], ...) follow CPython on that range.
    - A Python [int] is a [Z].
    - A call either returns a value or raises: [result A].  A checker returns
      a [pyvalue], since a Python function that falls off its end returns
      [None] rather than a boolean.
    - What the checkers take from outside the repository (langdetect, nltk,
      json, the helpers of [instructions_util], and the regular-expression
      engine on the patterns that the model does not interpret itself) is a
      field of the class [Libraries]: every theorem holds whatever these
      functions compute.  [json.loads] returns a document or raises any
      exception, the one that its caller catches or another one.
    - A set is an object: a dictionary of sets holds a reference to a set
      for each of its keys, two keys may hold the same set, and adding to a
      set is seen through every reference to it. *)

From Stdlib Require Import ZArith List Ascii String Lia Bool.
From stdpp Require Import gmap strings list fin_maps sorting.

Open Scope Z_scope.

(** ** Values, exceptions and results *)

Inductive exn :=
| NotImplementedError
| KeyError (key : string)
| IndexError
| ValueError
| LangDetectException
| re_error
| RuntimeError
| RecursionError.

Inductive result (A : Type) :=
| Return (a : A)
| Raise (e : exn).
Arguments Return {A} a.
Arguments Raise {A} e.

Inductive pyvalue :=
| PyBool (b : bool)
| PyNone.

#[global] Instance result_ret : MRet result := fun A a => Return a.
#[global] Instance result_bind : MBind result := fun A B k m =>
  match m with
  | Return a => k a
  | Raise e => Raise e
  end.

#[global] Instance exn_eq_dec : EqDecision exn.
Proof. solve_decision. Defined.

(** [try: body except e: handler] for a single exception class. *)
Definition try_except {A} (body : result A) (e : exn) (handler : result A) : result A :=
  match body with
  | Return a => Return a
  | Raise e' => if decide (e' = e) then handler else Raise e'
  end.

Abbreviation pystr := (list ascii).

(** A string literal of the source, as a [pystr]. *)
Definition str (s : string) : pystr := list_ascii_of_string s.

(** The characters the source names that a literal cannot hold. *)
Definition LF : ascii := "010"%char.
Definition DQUOTE : ascii := "034"%char.
Definition SQUOTE : ascii := "039"%char.

(** ** The built-in [str] methods the checkers use *)

Module PyStr.

Definition between (lo hi n : N) : bool := ((lo <=? n) && (n <=? hi))%N.

(** [ch.isspace()]: bidirectional class WS, B or S, or category Zs. *)
Definition isspace (c : ascii) : bool :=
  let n := N_of_ascii c in
  between 9 13 n || between 28 32 n || (n =? 133)%N || (n =? 160)%N.

Definition isupper_char (c : ascii) : bool :=
  let n := N_of_ascii c in
  between 65 90 n || between 192 214 n || between 216 222 n.

Definition islower_char (c : ascii) : bool :=
  let n := N_of_ascii c in
  between 97 122 n || (n =? 170)%N || (n =? 181)%N || (n =? 186)%N
  || between 223 246 n || between 248 255 n.

Definition lower_char (c : ascii) : ascii :=
  if isupper_char c then ascii_of_N (N_of_ascii c + 32) else c.

Definition lower (s : pystr) : pystr := map lower_char s.

(** [s.isupper()]: no lowercase character and at least one uppercase one. *)
Definition isupper (s : pystr) : bool :=
  forallb (fun c => negb (islower_char c)) s && existsb isupper_char s.

(** [s.islower()]: no uppercase character and at least one lowercase one. *)
Definition islower (s : pystr) : bool :=
  forallb (fun c => negb (isupper_char c)) s && existsb islower_char s.

Fixpoint lstrip_by (p : ascii -> bool) (s : pystr) : pystr :=
  match s with
  | [] => []
  | c :: s' => if p c then lstrip_by p s' else s
  end.

Definition rstrip_by (p : ascii -> bool) (s : pystr) : pystr :=
  rev (lstrip_by p (rev s)).

Definition strip_by (p : ascii -> bool) (s : pystr) : pystr :=
  rstrip_by p (lstrip_by p s).

(** [s.strip()], [s.lstrip()], [s.rstrip()] *)
Definition lstrip : pystr -> pystr := lstrip_by isspace.
Definition rstrip : pystr -> pystr := rstrip_by isspace.
Definition strip : pystr -> pystr := strip_by isspace.

Definition char_in (chars : pystr) (c : ascii) : bool :=
  existsb (Ascii.eqb c) chars.

(** [s.strip(chars)], [s.lstrip(chars)] *)
Definition lstrip_chars (chars : pystr) : pystr -> pystr := lstrip_by (char_in chars).
Definition strip_chars (chars : pystr) : pystr -> pystr := strip_by (char_in chars).

Definition eqb (s t : pystr) : bool := bool_decide (s = t).

Fixpoint startswith (s prefix : pystr) {struct prefix} : bool :=
  match prefix, s with
  | [], _ => true
  | p :: prefix', c :: s' => Ascii.eqb p c && startswith s' prefix'
  | _ :: _, [] => false
  end.

Definition endswith (s suffix : pystr) : bool :=
  startswith (rev s) (rev suffix).

Definition removeprefix (prefix s : pystr) : pystr :=
  if startswith s prefix then drop (length prefix) s else s.

Definition removesuffix (suffix s : pystr) : pystr :=
  if endswith s suffix then take (length s - length suffix) s else s.

(** [sub in s] *)
Fixpoint contains (sub s : pystr) : bool :=
  startswith s sub ||
  match s with
  | [] => false
  | _ :: s' => contains sub s'
  end.

(** [s.split()]: the maximal runs of characters that are not whitespace. *)
Fixpoint split_from (word : pystr) (s : pystr) : list pystr :=
  match s with
  | [] => match word with [] => [] | _ => [rev word] end
  | c :: s' =>
      if isspace c
      then match word with
           | [] => split_from [] s'
           | _ => rev word :: split_from [] s'
           end
      else split_from (c :: word) s'
  end.

Definition split (s : pystr) : list pystr := split_from [] s.

(** [collections.Counter(s)[key]]: a string that is not a single character
    is never a key of the counter. *)
Definition Counter_get (s : pystr) (key : pystr) : Z :=
  match key with
  | [c] => Z.of_nat (length (filter (fun x => x = c) s))
  | _ => 0
  end.

(** [bool(s)] *)
Definition truthy (s : pystr) : bool :=
  match s with [] => false | _ => true end.

(** [bool(l)] on a list *)
Definition truthy_list {A} (l : list A) : bool :=
  match l with [] => false | _ => true end.

(** [s <= t]: the order of the code points, lexicographically. *)
Fixpoint leb (s t : pystr) : bool :=
  match s, t with
  | [], _ => true
  | _ :: _, [] => false
  | c :: s', d :: t' =>
      if (N_of_ascii c <? N_of_ascii d)%N then true
      else if (N_of_ascii d <? N_of_ascii c)%N then false
      else leb s' t'
  end.

Fixpoint insert_sorted (s : pystr) (l : list pystr) : list pystr :=
  match l with
  | [] => [s]
  | t :: l' => if leb s t then s :: l else t :: insert_sorted s l'
  end.

(** [sorted(l)] on a list of strings *)
Definition sorted (l : list pystr) : list pystr :=
  foldr insert_sorted [] l.

(** [string.punctuation] *)
Definition punctuation : pystr :=
  str "!" ++ [DQUOTE] ++ str "#$%&'()*+,-./:;<=>?@[\]^_`{|}~".

(** [s * n] *)
Fixpoint times (s : pystr) (n : nat) : pystr :=
  match n with
  | O => []
  | S n' => s ++ times s n'
  end.

End PyStr.

(** [l[i]] on a list, with Python's negative indices. *)
Definition py_index {A} (l : list A) (i : Z) : result A :=
  let n := Z.of_nat (length l) in
  let j := if i <? 0 then i + n else i in
  if (0 <=? j) && (j <? n)
  then match l !! Z.to_nat j with
       | Some a => Return a
       | None => Raise IndexError
       end
  else Raise IndexError.

(** ** Regular expressions

    [re.split] and [re.findall] scan the text from left to right: at each
    position the pattern is tried, the first position where it matches gives
    the next match and the scan resumes after it.  The scan is modelled once,
    over a matcher that gives the length of the match of a pattern at the head
    of a text.  None of the patterns interpreted here matches the empty
    string. *)

Module Re.

Definition matcher := pystr -> option nat.

(** [re.split(pattern, s)] for a pattern without groups; [inside] counts the
    characters of the current match that are still to be passed. *)
Fixpoint split_from (m : matcher) (inside : nat) (seg : pystr) (s : pystr)
  : list pystr :=
  match s with
  | [] => [rev seg]
  | c :: s' =>
      match inside with
      | S k => split_from m k seg s'
      | O =>
          match m s with
          | Some (S n) => rev seg :: split_from m n [] s'
          | _ => split_from m 0 (c :: seg) s'
          end
      end
  end.

Definition split (m : matcher) (s : pystr) : list pystr := split_from m 0 [] s.

(** [re.findall(pattern, s)] for a pattern without groups. *)
Fixpoint findall_from (m : matcher) (inside : nat) (s : pystr) : list pystr :=
  match s with
  | [] => []
  | c :: s' =>
      match inside with
      | S k => findall_from m k s'
      | O =>
          match m s with
          | Some (S n) => take (S n) s :: findall_from m n s'
          | _ => findall_from m 0 s'
          end
      end
  end.

Definition findall (m : matcher) (s : pystr) : list pystr := findall_from m 0 s.

(** The length of the longest prefix of whitespace: a greedy [\s*]. *)
Fixpoint spaces (s : pystr) : nat :=
  match s with
  | c :: s' => if PyStr.isspace c then S (spaces s') else 0%nat
  | [] => 0%nat
  end.

(** The pattern [\s*\*\*\*\s*].  Giving back whitespace never helps the
    first [\s*], since the three asterisks cannot start on a whitespace
    character; the last [\s*] takes all the whitespace there is. *)
Definition divider : matcher := fun s =>
  let k := spaces s in
  let s1 := drop k s in
  if PyStr.startswith s1 (str "***")
  then Some (k + 3 + spaces (drop 3 s1))%nat
  else None.

(** The pattern [\n\n]. *)
Definition blank_line : matcher := fun s =>
  if PyStr.startswith s [LF; LF] then Some 2%nat else None.

(** The shortest run of characters other than a newline that is followed by
    [close], the closing character included: a lazy [.*?] and one
    character. *)
Fixpoint lazy_until (close : ascii) (s : pystr) : option nat :=
  match s with
  | [] => None
  | c :: s' =>
      if Ascii.eqb c close then Some 1%nat
      else if Ascii.eqb c LF then None
      else S <$> lazy_until close s'
  end.

(** The pattern [\[.*?\]]. *)
Definition brackets : matcher := fun s =>
  match s with
  | c :: s' => if Ascii.eqb c "["%char then S <$> lazy_until "]"%char s' else None
  | [] => None
  end.

(** [re.escape]: a backslash before each special character. *)
Definition special_chars : pystr :=
  str "()[]{}?*+-|^$\.&~# "
  ++ ["009"%char; "010"%char; "013"%char; "011"%char; "012"%char].

Definition escape (s : pystr) : pystr :=
  flat_map (fun c => if PyStr.char_in special_chars c then ["\"%char; c] else [c]) s.

Inductive flag := IGNORECASE | MULTILINE.

End Re.

(** ** The libraries outside the repository *)

Class Libraries := {
  (** [instructions_util.count_sentences], [instructions_util.count_words] *)
  count_sentences : pystr -> Z;
  count_words : pystr -> Z;
  (** [instructions_util.nltk.word_tokenize] *)
  word_tokenize : pystr -> list pystr;
  (** [langdetect.detect]; [None] when it raises [LangDetectException] *)
  langdetect_detect : pystr -> option pystr;
  (** [json.loads]: the document, or the exception that it raises,
      [ValueError] for a text that is not a JSON document and, among others,
      [RecursionError] for a text that is nested too deep *)
  json_document : Type;
  json_loads : pystr -> result json_document;
  (** The [re] engine on the patterns that are not interpreted above:
      whether a pattern compiles, [re.findall] (the whole matches, or the
      contents of the group when the pattern has one), whether [re.search]
      finds a match, and [re.split]. *)
  re_compiles : pystr -> bool;
  re_findall : pystr -> list Re.flag -> pystr -> list pystr;
  re_search : pystr -> list Re.flag -> pystr -> bool;
  re_split : pystr -> pystr -> list pystr;
}.

(** ** [instructions.py]: the checkers *)

Module instructions.

(** The relational operation for comparison. *)
Definition _COMPARISON_RELATION : list pystr :=
  [str "at most"; str "at least"; str "around"; str "less than"].

(** The options of constrained response. *)
Definition _CONSTRAINED_RESPONSE_OPTIONS : list pystr :=
  [str "My answer is yes."; str "My answer is no."; str "My answer is maybe."].

Module Instruction.
(** The base class: [check_following] is not implemented. *)
Definition check_following (value : pystr) : result pyvalue :=
  Raise NotImplementedError.
End Instruction.

Module ResponseLanguageChecker.
Section with_libraries.
Context `{Libraries}.

(** The statement under [try]. *)
Definition detection (value language : pystr) : result pyvalue :=
  match langdetect_detect value with
  | Some code => Return (PyBool (PyStr.eqb code language))
  | None => Raise LangDetectException
  end.

Definition check_following (value language : pystr) : result pyvalue :=
  try_except (detection value language) LangDetectException
    (Return (PyBool false)).
End with_libraries.
End ResponseLanguageChecker.

Module NumberOfSentences.
Section with_libraries.
Context `{Libraries}.

Definition check_following (value : pystr) (num_sentences : Z) (relation : pystr)
  : result pyvalue :=
  let _num_sentences_threshold := num_sentences in
  let _comparison_relation := relation in
  let num_sentences := count_sentences value in
  if PyStr.eqb _comparison_relation (str "at most")
  then Return (PyBool (num_sentences <=? _num_sentences_threshold))
  else if PyStr.eqb _comparison_relation (str "at least")
  then Return (PyBool (num_sentences >=? _num_sentences_threshold))
  else if PyStr.eqb _comparison_relation (str "around")
  then Return (PyBool (Z.abs (num_sentences - _num_sentences_threshold) <=? 2))
  else if PyStr.eqb _comparison_relation (str "less than")
  then Return (PyBool (num_sentences <? _num_sentences_threshold))
  else Return PyNone.
End with_libraries.
End NumberOfSentences.

Module PlaceholderChecker.
Definition check_following (value : pystr) (num_placeholders : Z) : result pyvalue :=
  let _num_placeholders := num_placeholders in
  let placeholders := Re.findall Re.brackets value in
  let num_placeholders := Z.of_nat (length placeholders) in
  Return (PyBool (num_placeholders >=? _num_placeholders)).
End PlaceholderChecker.

Module BulletListChecker.
Section with_libraries.
Context `{Libraries}.

Definition check_following (value : pystr) (num_bullets : Z) : result pyvalue :=
  let bullet_lists := re_findall (str "^\s*\*[^\*].*$") [Re.MULTILINE] value in
  let bullet_lists_2 := re_findall (str "^\s*-.*$") [Re.MULTILINE] value in
  let num_bullet_lists :=
    Z.of_nat (length bullet_lists) + Z.of_nat (length bullet_lists_2) in
  Return (PyBool (num_bullet_lists =? num_bullets)).
End with_libraries.
End BulletListChecker.

Module ConstrainedResponseChecker.
Definition check_following (value : pystr) : result pyvalue :=
  let _constrained_responses := _CONSTRAINED_RESPONSE_OPTIONS in
  let value := PyStr.strip value in
  Return (PyBool (existsb (fun constrained_response =>
                             PyStr.contains constrained_response value)
                    _constrained_responses)).
End ConstrainedResponseChecker.

Module ConstrainedStartChecker.
Section with_libraries.
Context `{Libraries}.

Definition check_following (value starter : pystr) : result pyvalue :=
  let _starter := PyStr.strip starter in
  let response_pattern := str "^\s*" ++ _starter ++ str ".*$" in
  if re_compiles response_pattern
  then Return (PyBool (re_search response_pattern [Re.MULTILINE] value))
  else Raise re_error.
End with_libraries.
End ConstrainedStartChecker.

Module HighlightSectionChecker.
Section with_libraries.
Context `{Libraries}.

Definition check_following (value : pystr) (num_highlights : Z) : result pyvalue :=
  let _num_highlights := num_highlights in
  let num_highlights := 0 in
  let highlights := re_findall (str "\*[^\n\*]*\*") [] value in
  let double_highlights := re_findall (str "\*\*[^\n\*]*\*\*") [] value in
  let num_highlights :=
    fold_left (fun n highlight =>
                 if PyStr.truthy (PyStr.strip (PyStr.strip_chars (str "*") highlight))
                 then n + 1 else n)
      highlights num_highlights in
  let num_highlights :=
    fold_left (fun n highlight =>
                 if PyStr.truthy
                      (PyStr.strip
                         (PyStr.removesuffix (str "**")
                            (PyStr.removeprefix (str "**") highlight)))
                 then n + 1 else n)
      double_highlights num_highlights in
  Return (PyBool (num_highlights >=? _num_highlights)).
End with_libraries.
End HighlightSectionChecker.

Module SectionChecker.
Section with_libraries.
Context `{Libraries}.

Definition check_following (value section_spliter : pystr) (num_sections : Z)
  : result pyvalue :=
  let _section_spliter := PyStr.strip section_spliter in
  let _num_sections := num_sections in
  let section_splitter_patten :=
    str "\s?" ++ Re.escape _section_spliter ++ str "\s?\S+\s?" in
  let sections := re_split section_splitter_patten value in
  let num_sections := Z.of_nat (length sections) - 1 in
  Return (PyBool (num_sections >=? _num_sections)).
End with_libraries.
End SectionChecker.

Module ParagraphChecker.

(** The loop over [enumerate(paragraphs)]: [None] when it leaves the
    function with [return False], the count otherwise. *)
Fixpoint count_paragraphs (len : nat) (index : nat) (paragraphs : list pystr)
  (num_paragraphs : Z) : option Z :=
  match paragraphs with
  | [] => Some num_paragraphs
  | paragraph :: rest =>
      if negb (PyStr.truthy (PyStr.strip paragraph))
      then if (index =? 0)%nat || (Z.of_nat index =? Z.of_nat len - 1)
           then count_paragraphs len (S index) rest (num_paragraphs - 1)
           else None
      else count_paragraphs len (S index) rest num_paragraphs
  end.

Definition check_following (value : pystr) (num_paragraphs : Z) : result pyvalue :=
  let _num_paragraphs := num_paragraphs in
  let paragraphs := Re.split Re.divider value in
  let num_paragraphs := Z.of_nat (length paragraphs) in
  match count_paragraphs (length paragraphs) 0 paragraphs num_paragraphs with
  | None => Return (PyBool false)
  | Some num_paragraphs => Return (PyBool (num_paragraphs =? _num_paragraphs))
  end.
End ParagraphChecker.

Module PostscriptChecker.
Section with_libraries.
Context `{Libraries}.

Definition check_following (value postscript_marker : pystr) : result pyvalue :=
  let _postscript_marker := PyStr.strip postscript_marker in
  let value := PyStr.lower value in
  let found postscript_pattern :=
    PyBool (PyStr.truthy_list
              (re_findall postscript_pattern [Re.MULTILINE] value)) in
  if PyStr.eqb _postscript_marker (str "P.P.S")
  then Return (found (str "\s*p\.\s?p\.\s?s.*$"))
  else if PyStr.eqb _postscript_marker (str "P.S.")
  then Return (found (str "\s*p\.\s?s\..*$"))
  else
    let postscript_pattern :=
      str "\s*" ++ PyStr.lower _postscript_marker ++ str ".*$" in
    if re_compiles postscript_pattern
    then Return (found postscript_pattern)
    else Raise re_error.
End with_libraries.
End PostscriptChecker.

Module KeywordChecker.
Section with_libraries.
Context `{Libraries}.

Definition check_following (value : pystr) (keywords : list pystr) : result pyvalue :=
  let _keywords := PyStr.sorted keywords in
  Return (PyBool (forallb (fun keyword =>
                             let pattern := str "\b" ++ Re.escape keyword ++ str "\b" in
                             re_search pattern [Re.IGNORECASE] value)
                    _keywords)).
End with_libraries.
End KeywordChecker.

Module KeywordFrequencyChecker.
Section with_libraries.
Context `{Libraries}.

Definition check_following (value keyword : pystr) (frequency : Z) (relation : pystr)
  : result pyvalue :=
  let _keyword := PyStr.strip keyword in
  let _frequency := frequency in
  let _comparison_relation := relation in
  let pattern := str "\b" ++ Re.escape _keyword ++ str "\b" in
  let actual_occurrences :=
    Z.of_nat (length (re_findall pattern [Re.IGNORECASE] value)) in
  if PyStr.eqb _comparison_relation (str "at most")
  then Return (PyBool (actual_occurrences <=? _frequency))
  else if PyStr.eqb _comparison_relation (str "at least")
  then Return (PyBool (actual_occurrences >=? _frequency))
  else if PyStr.eqb _comparison_relation (str "around")
  then Return (PyBool (Z.abs (actual_occurrences - _frequency) <=? 5))
  else if PyStr.eqb _comparison_relation (str "less than")
  then Return (PyBool (actual_occurrences <? _frequency))
  else Return PyNone.
End with_libraries.
End KeywordFrequencyChecker.

Module NumberOfWords.
Section with_libraries.
Context `{Libraries}.

Definition check_following (value : pystr) (num_words : Z) (relation : pystr)
  : result pyvalue :=
  let _num_words := num_words in
  let _comparison_relation := relation in
  let num_words := count_words value in
  if PyStr.eqb _comparison_relation (str "at most")
  then Return (PyBool (num_words <=? _num_words))
  else if PyStr.eqb _comparison_relation (str "at least")
  then Return (PyBool (num_words >=? _num_words))
  else if PyStr.eqb _comparison_relation (str "around")
  then Return (PyBool (Z.abs (num_words - _num_words) <=? 25))
  else if PyStr.eqb _comparison_relation (str "less than")
  then Return (PyBool (num_words <? _num_words))
  else Return PyNone.
End with_libraries.
End NumberOfWords.

Module JsonFormat.
Section with_libraries.
Context `{Libraries}.

(** The statement under [try]. *)
Definition parse (value : pystr) : result unit :=
  _ ← json_loads value; Return ().

Definition check_following (value : pystr) : result pyvalue :=
  let value :=
    PyStr.strip
      (PyStr.removesuffix (str "```")
         (PyStr.removeprefix (str "```")
            (PyStr.removeprefix (str "```JSON")
               (PyStr.removeprefix (str "```Json")
                  (PyStr.removeprefix (str "```json")
                     (PyStr.strip value)))))) in
  try_except (_ ← parse value; Return (PyBool true)) ValueError
    (Return (PyBool false)).
End with_libraries.
End JsonFormat.

Module ParagraphFirstWordCheck.

Definition punctuation : pystr := str ".,?!'" ++ [DQUOTE].

(** The loop over the letters of [word], which stops at the first
    punctuation character. *)
Fixpoint first_word_of (word : pystr) : pystr :=
  match word with
  | [] => []
  | letter :: rest =>
      if PyStr.char_in punctuation letter then []
      else PyStr.lower_char letter :: first_word_of rest
  end.

Definition check_following (value : pystr) (num_paragraphs nth_paragraph : Z)
  (first_word : pystr) : result pyvalue :=
  let _num_paragraphs := num_paragraphs in
  let _nth_paragraph := nth_paragraph in
  let _first_word := first_word in
  let paragraphs := Re.split Re.blank_line value in
  let num_paragraphs := Z.of_nat (length paragraphs) in
  let num_paragraphs :=
    fold_left (fun n paragraph =>
                 if negb (PyStr.truthy (PyStr.strip paragraph)) then n - 1 else n)
      paragraphs num_paragraphs in
  if _nth_paragraph <=? num_paragraphs
  then
    paragraph ← py_index paragraphs (_nth_paragraph - 1);
    let paragraph := PyStr.strip paragraph in
    if negb (PyStr.truthy paragraph)
    then Return (PyBool false)
    else
      word ← py_index (PyStr.split paragraph) 0;
      let word := PyStr.strip word in
      let word := PyStr.lstrip_chars [SQUOTE] word in
      let word := PyStr.lstrip_chars [DQUOTE] word in
      let first_word := first_word_of word in
      Return (PyBool ((num_paragraphs =? _num_paragraphs)
                      && PyStr.eqb first_word _first_word))
  else Return (PyBool false).
End ParagraphFirstWordCheck.

Module ForbiddenWords.
Section with_libraries.
Context `{Libraries}.

(** The loop over the sorted words; a word is used as a pattern as it
    is, so it may fail to compile. *)
Fixpoint search_words (words : list pystr) (value : pystr) : result pyvalue :=
  match words with
  | [] => Return (PyBool true)
  | word :: rest =>
      let pattern := str "\b" ++ word ++ str "\b" in
      if re_compiles pattern
      then if re_search pattern [Re.IGNORECASE] value
           then Return (PyBool false)
           else search_words rest value
      else Raise re_error
  end.

Definition check_following (value : pystr) (forbidden_words : list pystr)
  : result pyvalue :=
  let _forbidden_words := remove_dups forbidden_words in
  let _forbidden_words := PyStr.sorted _forbidden_words in
  search_words _forbidden_words value.
End with_libraries.
End ForbiddenWords.

Module TwoResponsesChecker.
Section with_libraries.
Context `{Libraries}.

(** The loop over [enumerate(responses)]: [None] when it leaves the
    function with [return False], the valid responses otherwise. *)
Fixpoint collect (len : nat) (index : nat) (responses : list pystr)
  (valid_responses : list pystr) : option (list pystr) :=
  match responses with
  | [] => Some valid_responses
  | response :: rest =>
      if negb (PyStr.truthy (PyStr.strip response))
      then if negb (index =? 0)%nat && negb (Z.of_nat index =? Z.of_nat len - 1)
           then None
           else collect len (S index) rest valid_responses
      else collect len (S index) rest (valid_responses ++ [response])
  end.

Definition check_following (value : pystr) : result pyvalue :=
  let responses := re_split (str "(?<!\*)\*{6}(?!\*)") value in
  match collect (length responses) 0 responses [] with
  | None => Return (PyBool false)
  | Some valid_responses =>
      if (length valid_responses =? 2)%nat
      then
        first ← py_index valid_responses 0;
        second ← py_index valid_responses 1;
        Return (PyBool (negb (PyStr.eqb (PyStr.strip first) (PyStr.strip second))))
      else Return (PyBool false)
  end.
End with_libraries.
End TwoResponsesChecker.

Module RepeatPromptThenAnswer.

(** The substitution removes every character of [string.punctuation]. *)
Definition normalize_text (s : pystr) : pystr :=
  let s := PyStr.lower (PyStr.strip s) in
  List.filter (fun c => negb (PyStr.char_in PyStr.punctuation c)) s.

Definition check_following (value prompt_to_repeat : pystr) : result pyvalue :=
  let norm_value := normalize_text value in
  let norm_prompt := normalize_text prompt_to_repeat in
  if PyStr.startswith norm_value norm_prompt
  then Return (PyBool true)
  else Return (PyBool false).
End RepeatPromptThenAnswer.

Module EndChecker.
Definition check_following (value end_phrase : pystr) : result pyvalue :=
  let _end_phrase := PyStr.strip end_phrase in
  let value := PyStr.lower (PyStr.strip_chars [DQUOTE] (PyStr.strip value)) in
  let _end_phrase := PyStr.lower (PyStr.strip _end_phrase) in
  Return (PyBool (PyStr.endswith value _end_phrase)).
End EndChecker.

Module TitleChecker.
Section with_libraries.
Context `{Libraries}.

Definition check_following (value : pystr) : result pyvalue :=
  let pattern := str "<<([^<\n][^>\n]*)>>" in
  let titles := re_findall pattern [] value in
  Return (PyBool (existsb (fun title => PyStr.truthy (PyStr.strip title)) titles)).
End with_libraries.
End TitleChecker.

Module LetterFrequencyChecker.
Definition check_following (value letter : pystr) (let_frequency : Z)
  (let_relation : pystr) : result pyvalue :=
  let _letter := PyStr.lower (PyStr.strip letter) in
  let _frequency := let_frequency in
  let _comparison_relation := let_relation in
  let value := PyStr.lower value in
  let letters := PyStr.Counter_get value in
  if PyStr.eqb _comparison_relation (str "at most")
  then Return (PyBool (letters _letter <=? _frequency))
  else if PyStr.eqb _comparison_relation (str "at least")
  then Return (PyBool (letters _letter >=? _frequency))
  else if PyStr.eqb _comparison_relation (str "around")
  then Return (PyBool (Z.abs (letters _letter - _frequency) <=? 5))
  else if PyStr.eqb _comparison_relation (str "less than")
  then Return (PyBool (letters _letter <? _frequency))
  else Return PyNone.
End LetterFrequencyChecker.

Module CapitalLettersEnglishChecker.
Section with_libraries.
Context `{Libraries}.

(** The statement under [try]: [and] does not evaluate its right operand
    when the left one is false. *)
Definition detection (value : pystr) : result pyvalue :=
  if PyStr.isupper value
  then match langdetect_detect value with
       | Some code => Return (PyBool (PyStr.eqb code (str "en")))
       | None => Raise LangDetectException
       end
  else Return (PyBool false).

Definition check_following (value : pystr) : result pyvalue :=
  try_except (detection value) LangDetectException (Return (PyBool true)).
End with_libraries.
End CapitalLettersEnglishChecker.

Module LowercaseLettersEnglishChecker.
Section with_libraries.
Context `{Libraries}.

Definition detection (value : pystr) : result pyvalue :=
  if PyStr.islower value
  then match langdetect_detect value with
       | Some code => Return (PyBool (PyStr.eqb code (str "en")))
       | None => Raise LangDetectException
       end
  else Return (PyBool false).

Definition check_following (value : pystr) : result pyvalue :=
  try_except (detection value) LangDetectException (Return (PyBool true)).
End with_libraries.
End LowercaseLettersEnglishChecker.

Module CommaChecker.
(** The pattern is an escaped comma: the search finds a match when the
    text holds a comma. *)
Definition check_following (value : pystr) : result pyvalue :=
  Return (PyBool (negb (existsb (Ascii.eqb ","%char) value))).
End CommaChecker.

Module CapitalWordFrequencyChecker.
Section with_libraries.
Context `{Libraries}.

Definition check_following (value : pystr) (capital_frequency : Z)
  (capital_relation : pystr) : result pyvalue :=
  let _frequency := capital_frequency in
  let _comparison_relation := capital_relation in
  let words := word_tokenize value in
  let capital_words := List.filter PyStr.isupper words in
  let capital_words := Z.of_nat (length capital_words) in
  if PyStr.eqb _comparison_relation (str "at most")
  then Return (PyBool (capital_words <=? _frequency))
  else if PyStr.eqb _comparison_relation (str "at least")
  then Return (PyBool (capital_words >=? _frequency))
  else if PyStr.eqb _comparison_relation (str "around")
  then Return (PyBool (Z.abs (capital_words - _frequency) <=? 5))
  else if PyStr.eqb _comparison_relation (str "less than")
  then Return (PyBool (capital_words <? _frequency))
  else Return PyNone.
End with_libraries.
End CapitalWordFrequencyChecker.

Module QuotationChecker.
Definition check_following (value : pystr) : result pyvalue :=
  let value := PyStr.strip value in
  if (1 <? length value)%nat
  then
    first ← py_index value 0;
    if Ascii.eqb first DQUOTE
    then
      last ← py_index value (-1);
      Return (PyBool (Ascii.eqb last DQUOTE))
    else Return (PyBool false)
  else Return (PyBool false).
End QuotationChecker.

End instructions.

(** ** [instructions_registry.py] *)

Module instructions_registry.

Definition _KEYWORD : string := "keywords:".
Definition _LANGUAGE : string := "language:".
Definition _LENGTH : string := "length_constraints:".
Definition _CONTENT : string := "detectable_content:".
Definition _FORMAT : string := "detectable_format:".
Definition _MULTITURN : string := "multi-turn:".
Definition _COMBINATION : string := "combination:".
Definition _STARTEND : string := "startend:".
Definition _CHANGE_CASES : string := "change_case:".
Definition _PUNCTUATION : string := "punctuation:".

(** The checker classes of [instructions.py]. *)
Inductive checker :=
| KeywordChecker
| KeywordFrequencyChecker
| ForbiddenWords
| LetterFrequencyChecker
| ResponseLanguageChecker
| NumberOfSentences
| ParagraphChecker
| NumberOfWords
| ParagraphFirstWordCheck
| PlaceholderChecker
| PostscriptChecker
| BulletListChecker
| ConstrainedResponseChecker
| HighlightSectionChecker
| SectionChecker
| JsonFormat
| TitleChecker
| TwoResponsesChecker
| RepeatPromptThenAnswer
| EndChecker
| CapitalWordFrequencyChecker
| CapitalLettersEnglishChecker
| LowercaseLettersEnglishChecker
| CommaChecker
| QuotationChecker
| ConstrainedStartChecker.

Definition INSTRUCTION_DICT : gmap string checker :=
  list_to_map [
    (_KEYWORD +:+ "existence", KeywordChecker);
    (_KEYWORD +:+ "frequency", KeywordFrequencyChecker);
    (_KEYWORD +:+ "forbidden_words", ForbiddenWords);
    (_KEYWORD +:+ "letter_frequency", LetterFrequencyChecker);
    (_LANGUAGE +:+ "response_language", ResponseLanguageChecker);
    (_LENGTH +:+ "number_sentences", NumberOfSentences);
    (_LENGTH +:+ "number_paragraphs", ParagraphChecker);
    (_LENGTH +:+ "number_words", NumberOfWords);
    (_LENGTH +:+ "nth_paragraph_first_word", ParagraphFirstWordCheck);
    (_CONTENT +:+ "number_placeholders", PlaceholderChecker);
    (_CONTENT +:+ "postscript", PostscriptChecker);
    (_FORMAT +:+ "number_bullet_lists", BulletListChecker);
    (_FORMAT +:+ "constrained_response", ConstrainedResponseChecker);
    (_FORMAT +:+ "number_highlighted_sections", HighlightSectionChecker);
    (_FORMAT +:+ "multiple_sections", SectionChecker);
    (_FORMAT +:+ "json_format", JsonFormat);
    (_FORMAT +:+ "title", TitleChecker);
    (_COMBINATION +:+ "two_responses", TwoResponsesChecker);
    (_COMBINATION +:+ "repeat_prompt", RepeatPromptThenAnswer);
    (_STARTEND +:+ "end_checker", EndChecker);
    (_CHANGE_CASES +:+ "capital_word_frequency", CapitalWordFrequencyChecker);
    (_CHANGE_CASES +:+ "english_capital", CapitalLettersEnglishChecker);
    (_CHANGE_CASES +:+ "english_lowercase", LowercaseLettersEnglishChecker);
    (_PUNCTUATION +:+ "no_comma", CommaChecker);
    (_STARTEND +:+ "quotation", QuotationChecker)
  ].

(** The keyword arguments [check_following] takes, class by class, in the
    order of its signature. *)
Definition kwargs (c : checker) : Type :=
  match c with
  | KeywordChecker => list pystr
  | KeywordFrequencyChecker => pystr * Z * pystr
  | ForbiddenWords => list pystr
  | LetterFrequencyChecker => pystr * Z * pystr
  | ResponseLanguageChecker => pystr
  | NumberOfSentences => Z * pystr
  | ParagraphChecker => Z
  | NumberOfWords => Z * pystr
  | ParagraphFirstWordCheck => Z * Z * pystr
  | PlaceholderChecker => Z
  | PostscriptChecker => pystr
  | BulletListChecker => Z
  | ConstrainedResponseChecker => unit
  | HighlightSectionChecker => Z
  | SectionChecker => pystr * Z
  | JsonFormat => unit
  | TitleChecker => unit
  | TwoResponsesChecker => unit
  | RepeatPromptThenAnswer => pystr
  | EndChecker => pystr
  | CapitalWordFrequencyChecker => Z * pystr
  | CapitalLettersEnglishChecker => unit
  | LowercaseLettersEnglishChecker => unit
  | CommaChecker => unit
  | QuotationChecker => unit
  | ConstrainedStartChecker => pystr
  end.

(** [c(id).check_following(value, **args)] *)
Definition check_following `{Libraries} (c : checker)
  : kwargs c -> pystr -> result pyvalue :=
  match c return kwargs c -> pystr -> result pyvalue with
  | KeywordChecker => fun keywords value =>
      instructions.KeywordChecker.check_following value keywords
  | KeywordFrequencyChecker => fun '(keyword, frequency, relation) value =>
      instructions.KeywordFrequencyChecker.check_following value keyword frequency relation
  | ForbiddenWords => fun forbidden_words value =>
      instructions.ForbiddenWords.check_following value forbidden_words
  | LetterFrequencyChecker => fun '(letter, let_frequency, let_relation) value =>
      instructions.LetterFrequencyChecker.check_following value letter let_frequency
        let_relation
  | ResponseLanguageChecker => fun language value =>
      instructions.ResponseLanguageChecker.check_following value language
  | NumberOfSentences => fun '(num_sentences, relation) value =>
      instructions.NumberOfSentences.check_following value num_sentences relation
  | ParagraphChecker => fun num_paragraphs value =>
      instructions.ParagraphChecker.check_following value num_paragraphs
  | NumberOfWords => fun '(num_words, relation) value =>
      instructions.NumberOfWords.check_following value num_words relation
  | ParagraphFirstWordCheck => fun '(num_paragraphs, nth_paragraph, first_word) value =>
      instructions.ParagraphFirstWordCheck.check_following value num_paragraphs
        nth_paragraph first_word
  | PlaceholderChecker => fun num_placeholders value =>
      instructions.PlaceholderChecker.check_following value num_placeholders
  | PostscriptChecker => fun postscript_marker value =>
      instructions.PostscriptChecker.check_following value postscript_marker
  | BulletListChecker => fun num_bullets value =>
      instructions.BulletListChecker.check_following value num_bullets
  | ConstrainedResponseChecker => fun _ value =>
      instructions.ConstrainedResponseChecker.check_following value
  | HighlightSectionChecker => fun num_highlights value =>
      instructions.HighlightSectionChecker.check_following value num_highlights
  | SectionChecker => fun '(section_spliter, num_sections) value =>
      instructions.SectionChecker.check_following value section_spliter num_sections
  | JsonFormat => fun _ value =>
      instructions.JsonFormat.check_following value
  | TitleChecker => fun _ value =>
      instructions.TitleChecker.check_following value
  | TwoResponsesChecker => fun _ value =>
      instructions.TwoResponsesChecker.check_following value
  | RepeatPromptThenAnswer => fun prompt_to_repeat value =>
      instructions.RepeatPromptThenAnswer.check_following value prompt_to_repeat
  | EndChecker => fun end_phrase value =>
      instructions.EndChecker.check_following value end_phrase
  | CapitalWordFrequencyChecker => fun '(capital_frequency, capital_relation) value =>
      instructions.CapitalWordFrequencyChecker.check_following value capital_frequency
        capital_relation
  | CapitalLettersEnglishChecker => fun _ value =>
      instructions.CapitalLettersEnglishChecker.check_following value
  | LowercaseLettersEnglishChecker => fun _ value =>
      instructions.LowercaseLettersEnglishChecker.check_following value
  | CommaChecker => fun _ value =>
      instructions.CommaChecker.check_following value
  | QuotationChecker => fun _ value =>
      instructions.QuotationChecker.check_following value
  | ConstrainedStartChecker => fun starter value =>
      instructions.ConstrainedStartChecker.check_following value starter
  end.

(** *** [conflict_make]

    The argument is a dictionary object whose values are set objects.  The
    function does not change the dictionary itself, which it returns; it
    adds to the sets, and a set that several keys hold is changed for all of
    them.  A call is a computation over the state of the set objects, the
    heap, which keeps its state when an exception leaves the call. *)

(** The identity of a set object. *)
Abbreviation loc := positive.

(** The set objects.  A location that the heap does not list is an empty
    set. *)
Abbreviation heap := (gmap loc (gset string)).

Definition M (S A : Type) : Type := S -> result A * S.

#[global] Instance M_ret {S} : MRet (M S) := fun A a st => (Return a, st).
#[global] Instance M_bind {S} : MBind (M S) := fun A B k m st =>
  match m st with
  | (Return a, st') => k a st'
  | (Raise e, st') => (Raise e, st')
  end.

(** [for x in l: body(x)], over a sequence that the body does not change *)
Fixpoint for_each {S A} (l : list A) (body : A -> M S unit) : M S unit :=
  match l with
  | [] => mret ()
  | x :: l' => _ ← body x; for_each l' body
  end.

(** The order in which a dictionary gives its keys and a set object its
    elements: for a dictionary the order of insertion, for a set an order
    that the language leaves open and that may differ between two sets with
    the same elements. *)
Class IterationOrder := {
  dict_keys : gmap string loc -> list string;
  set_elements : loc -> gset string -> list string;
  dict_keys_perm : forall d, dict_keys d ≡ₚ elements (dom d);
  set_elements_perm : forall l s, set_elements l s ≡ₚ elements s;
}.

(** [conflicts[key]]: the set object of [key] *)
Definition getitem (conflicts : gmap string loc) (key : string) : M heap loc :=
  fun h =>
    match conflicts !! key with
    | Some l => (Return l, h)
    | None => (Raise (KeyError key), h)
    end.

(** [s.add(x)] on the set object at [l] *)
Definition set_add (l : loc) (x : string) : M heap unit := fun h =>
  (Return (), <[l := h !!! l ∪ {[x]}]> h).

(** The iterator of the set object at [l].  It has taken the number of
    elements, [used], when the loop began; each time the loop asks for the
    next element, the last time included, when no element is left, it raises
    [RuntimeError] if the set has another number of elements by then. *)
Fixpoint iterate (l : loc) (used : nat) (ks : list string) (body : string -> M heap unit)
  : M heap unit :=
  fun h =>
    if decide (size (h !!! l) = used)
    then match ks with
         | [] => (Return (), h)
         | k :: ks' =>
             match body k h with
             | (Return _, h') => iterate l used ks' body h'
             | (Raise e, h') => (Raise e, h')
             end
         end
    else (Raise RuntimeError, h).

Section with_order.
Context `{IterationOrder}.

(** [for k in s: body(k)] on the set object at [l] *)
Definition for_in_set (l : loc) (body : string -> M heap unit) : M heap unit :=
  fun h => iterate l (size (h !!! l)) (set_elements l (h !!! l)) body h.

(** The body of the outer loop. *)
Definition visit (conflicts : gmap string loc) (key : string) : M heap unit :=
  s ← getitem conflicts key;
  _ ← for_in_set s (fun k => sk ← getitem conflicts k; set_add sk key);
  s ← getitem conflicts key;
  set_add s key.

Definition conflict_make (conflicts : gmap string loc) : M heap (gmap string loc) :=
  _ ← for_each (dict_keys conflicts) (visit conflicts);
  mret conflicts.
End with_order.

(** The order of stdpp, for the examples. *)
#[global] Instance elements_order : IterationOrder := {|
  dict_keys d := elements (dom d);
  set_elements _ s := elements s;
  dict_keys_perm d := reflexivity _;
  set_elements_perm _ s := reflexivity _;
|}.

End instructions_registry.

(** * The vocabulary of the specification *)

(** The relational comparator of the specification: the four relations and
    what each asks of the actual count, for a window fixed by the family of
    the constraint. *)
Inductive relation := at_most | at_least | around | less_than.

Definition relation_name (r : relation) : pystr :=
  match r with
  | at_most => str "at most"
  | at_least => str "at least"
  | around => str "around"
  | less_than => str "less than"
  end.

Definition satisfied (window : Z) (r : relation) (actual threshold : Z) : Prop :=
  match r with
  | at_most => actual <= threshold
  | at_least => actual >= threshold
  | around => Z.abs (actual - threshold) <= window
  | less_than => actual < threshold
  end.

#[global] Instance satisfied_dec window r actual threshold :
  Decision (satisfied window r actual threshold).
Proof. destruct r; simpl; apply _. Defined.

(** The chain of comparisons that the source repeats in each of the five
    checkers, as a function of the window and of the count. *)
Definition chain (window actual threshold : Z) (relation : pystr) : result pyvalue :=
  if PyStr.eqb relation (str "at most") then Return (PyBool (actual <=? threshold))
  else if PyStr.eqb relation (str "at least") then Return (PyBool (actual >=? threshold))
  else if PyStr.eqb relation (str "around")
  then Return (PyBool (Z.abs (actual - threshold) <=? window))
  else if PyStr.eqb relation (str "less than") then Return (PyBool (actual <? threshold))
  else Return PyNone.

(** Libraries for the examples: sentences end at a full stop, words are
    separated by whitespace, a text without eight letters has no detectable
    language, the only JSON document is the empty object, a text that opens
    a thousand lists or more passes the recursion limit of the parser, and
    the patterns left to the engine match nowhere. *)
Definition sample_libraries : Libraries := {|
  count_sentences s := Z.of_nat (length (List.filter (Ascii.eqb "."%char) s));
  count_words s := Z.of_nat (length (PyStr.split s));
  word_tokenize := PyStr.split;
  langdetect_detect s :=
    if (8 <=? length (List.filter
                        (fun c => PyStr.isupper_char c || PyStr.islower_char c) s))%nat
    then Some (str "en") else None;
  json_document := unit;
  json_loads s :=
    if PyStr.eqb s (str "{}") then Return ()
    else if (1000 <=? length s - length (PyStr.lstrip_by (Ascii.eqb "[") s))%nat
         then Raise RecursionError
         else Raise ValueError;
  re_compiles _ := true;
  re_findall _ _ _ := [];
  re_search _ _ _ := false;
  re_split _ s := [s];
|}.

(** A segment that holds nothing but whitespace. *)
Definition blank (segment : pystr) : bool :=
  negb (PyStr.truthy (PyStr.strip segment)).

(** The segments that are neither the first nor the last one. *)
Definition interior (segments : list pystr) : list pystr :=
  removelast (tail segments).

Definition drop_blank_head (segments : list pystr) : list pystr :=
  match segments with
  | segment :: rest => if blank segment then rest else segments
  | [] => []
  end.

(** The segments that remain when an empty first and an empty last segment
    are discarded. *)
Definition discard_ends (segments : list pystr) : list pystr :=
  rev (drop_blank_head (rev (drop_blank_head segments))).

(** The normalization of [startend:end_checker] in the words of the
    specification: trim, strip one layer of surrounding quotes, fold the
    case. *)
Definition strip_one_layer (s : pystr) : pystr :=
  match s with
  | c :: s' =>
      match last s' with
      | Some d => if Ascii.eqb c DQUOTE && Ascii.eqb d DQUOTE then removelast s' else s
      | None => s
      end
  | [] => []
  end.

Definition normalize_as_specified (s : pystr) : pystr :=
  PyStr.lower (strip_one_layer (PyStr.strip s)).

Definition end_checker_as_specified (value end_phrase : pystr) : bool :=
  PyStr.endswith (normalize_as_specified value) (normalize_as_specified end_phrase).

(** The longest prefix of a word that holds none of the punctuation
    characters of [length_constraints:nth_paragraph_first_word]. *)
Fixpoint before_punctuation (word : pystr) : pystr :=
  match word with
  | [] => []
  | c :: rest =>
      if PyStr.char_in instructions.ParagraphFirstWordCheck.punctuation c then []
      else c :: before_punctuation rest
  end.

(** The first token of a paragraph as the checker compares it: without its
    leading quotes, cut at the first punctuation character, in lower case. *)
Definition normalized_token (word : pystr) : pystr :=
  PyStr.lower
    (before_punctuation (PyStr.lstrip_chars [DQUOTE] (PyStr.lstrip_chars [SQUOTE] word))).

(** A word without whitespace. *)
Definition spaceless (word : pystr) : Prop :=
  word <> [] /\ forallb (fun c => negb (PyStr.isspace c)) word = true.

(** The text that [detectable_format:json_format] gives to the parser: the
    trimmed response without its code fence. *)
Definition unfenced (value : pystr) : pystr :=
  PyStr.strip
    (PyStr.removesuffix (str "```")
       (PyStr.removeprefix (str "```")
          (PyStr.removeprefix (str "```JSON")
             (PyStr.removeprefix (str "```Json")
                (PyStr.removeprefix (str "```json")
                   (PyStr.strip value)))))).



(** A conflict table names only identifiers that it has as keys. *)
Definition closed (conflicts : gmap string (gset string)) : Prop :=
  map_Forall (fun _ s => s ⊆ dom conflicts) conflicts.

(** If A conflicts with B, then B conflicts with A. *)
Definition symmetric (conflicts : gmap string (gset string)) : Prop :=
  forall a b sa, conflicts !! a = Some sa -> b ∈ sa ->
    exists sb, conflicts !! b = Some sb /\ a ∈ sb.

(** Every identifier conflicts with itself. *)
Definition reflexive (conflicts : gmap string (gset string)) : Prop :=
  forall a sa, conflicts !! a = Some sa -> a ∈ sa.

(** The table that a dictionary of set objects stands for: each key with
    the elements of its set. *)
Definition contents (conflicts : gmap string instructions_registry.loc)
  (h : instructions_registry.heap) : gmap string (gset string) :=
  (fun l => h !!! l) <$> conflicts.

(** No two keys of the dictionary hold the same set object. *)
Definition unshared (conflicts : gmap string instructions_registry.loc) : Prop :=
  forall k1 k2 l, conflicts !! k1 = Some l -> conflicts !! k2 = Some l -> k1 = k2.

(** The dictionaries of the examples, and their set objects.  In the first
    three each key has a set of its own: [{'a': {'b'}, 'b': set()}], what a
    call makes of it, and [{'a': {'b'}}].  In the last two keys share a set:
    [s = {'b'}] in [{'a': s, 'b': s}], and [s = {'a', 'b'}] in
    [{'a': s, 'b': s, 'c': {'a'}}]. *)
Definition one_way : gmap string instructions_registry.loc :=
  <["a" := 1%positive]> (<["b" := 2%positive]> ∅).

Definition one_way_sets : instructions_registry.heap :=
  <[1%positive := {["b"]}]> (<[2%positive := ∅]> ∅).

Definition both_ways_sets : instructions_registry.heap :=
  <[1%positive := {["a"; "b"]}]> (<[2%positive := {["a"; "b"]}]> ∅).

Definition dangling : gmap string instructions_registry.loc :=
  <["a" := 1%positive]> ∅.

Definition dangling_sets : instructions_registry.heap :=
  <[1%positive := {["b"]}]> ∅.

Definition shared_pair : gmap string instructions_registry.loc :=
  <["a" := 1%positive]> (<["b" := 1%positive]> ∅).

Definition shared_pair_sets : instructions_registry.heap :=
  <[1%positive := {["b"]}]> ∅.

Definition shared_triple : gmap string instructions_registry.loc :=
  <["a" := 1%positive]> (<["b" := 1%positive]> (<["c" := 2%positive]> ∅)).

Definition shared_triple_sets : instructions_registry.heap :=
  <[1%positive := {["a"; "b"]}]> (<[2%positive := {["a"]}]> ∅).

(** The keys whose round of the outer loop is done conflict with themselves,
    and with whoever conflicts with them. *)
Definition settled (done : list string) (st : gmap string (gset string)) : Prop :=
  forall y, y ∈ done ->
    exists sy, st !! y = Some sy /\ y ∈ sy
      /\ forall x, x ∈ sy -> exists sx, st !! x = Some sx /\ y ∈ sx.

(** Every conflict of [st] is a conflict of [T], in one direction or the
    other, or the conflict of a key with itself. *)
Definition stems_from (T st : gmap string (gset string)) : Prop :=
  forall x sx y, st !! x = Some sx -> y ∈ sx ->
    y = x \/ (exists s, T !! x = Some s /\ y ∈ s) \/ (exists s, T !! y = Some s /\ x ∈ s).

(** [st] has the keys of [T] and keeps its conflicts. *)
Definition extends (T st : gmap string (gset string)) : Prop :=
  dom st = dom T /\ forall x s, T !! x = Some s -> exists s', st !! x = Some s' /\ s ⊆ s'.

(** The text made of segments and of the separators between them. *)
Fixpoint interleave (segments separators : list pystr) : pystr :=
  match segments, separators with
  | segment :: segments', separator :: separators' =>
      segment ++ separator ++ interleave segments' separators'
  | segment :: _, [] => segment
  | [], _ => []
  end.

(** A divider: three asterisks, with whitespace and nothing else around
    them. *)
Definition is_divider (separator : pystr) : Prop :=
  exists before after,
    separator = before ++ str "***" ++ after
    /\ forallb PyStr.isspace before = true
    /\ forallb PyStr.isspace after = true.

(** A second order of iteration, for the examples: the order of stdpp read
    from the end. *)
Definition reversed_order : instructions_registry.IterationOrder := {|
  instructions_registry.dict_keys d := reverse (elements (dom d));
  instructions_registry.set_elements _ s := reverse (elements s);
  instructions_registry.dict_keys_perm d := reverse_Permutation _;
  instructions_registry.set_elements_perm _ s := reverse_Permutation _;
|}.

(** ** The dictionary whose keys do not share their sets

    When every key holds a set object of its own, the dictionary is a table
    from keys to sets that a call updates: adding to the set of a key
    changes the entry of that key and no other, and the set that a loop
    iterates over keeps its size, since the loop adds to it only the key
    that it has taken from it.  This is [conflict_make] as it acts on such a
    table; it serves in the proofs, where the run on the set objects is
    shown to follow it. *)

Module owned.

Abbreviation table := (gmap string (gset string)).

Class Order := {
  dict_keys : table -> list string;
  set_elements : string -> gset string -> list string;
  dict_keys_perm : forall d, dict_keys d ≡ₚ elements (dom d);
  set_elements_perm : forall key s, set_elements key s ≡ₚ elements s;
}.

Definition add (k key : string) : instructions_registry.M table unit := fun conflicts =>
  match conflicts !! k with
  | Some s => (Return (), <[k := s ∪ {[key]}]> conflicts)
  | None => (Raise (KeyError k), conflicts)
  end.

Definition getitem (key : string) : instructions_registry.M table (gset string) :=
  fun conflicts =>
    match conflicts !! key with
    | Some s => (Return s, conflicts)
    | None => (Raise (KeyError key), conflicts)
    end.

Section with_order.
Context `{Order}.

Definition visit (key : string) : instructions_registry.M table unit :=
  s ← getitem key;
  _ ← instructions_registry.for_each (set_elements key s) (fun k => add k key);
  add key key.

Definition conflict_make : instructions_registry.M table unit := fun conflicts =>
  instructions_registry.for_each (dict_keys conflicts) visit conflicts.
End with_order.

End owned.

(** The order in which the table of a dictionary is gone through, given the
    order of the dictionary and of its set objects. *)
Definition owned_order `{instructions_registry.IterationOrder}
  (conflicts : gmap string instructions_registry.loc) : owned.Order.
Proof.
  refine {|
    owned.dict_keys T :=
      if decide (dom T = dom conflicts)
      then instructions_registry.dict_keys conflicts
      else elements (dom T);
    owned.set_elements key s :=
      match conflicts !! key with
      | Some l => instructions_registry.set_elements l s
      | None => elements s
      end;
  |}.
  - intros T. case_decide as Hdom; [|done].
    rewrite Hdom. apply instructions_registry.dict_keys_perm.
  - intros key s. destruct (conflicts !! key); [|done].
    apply instructions_registry.set_elements_perm.
Defined.

(** The order of [sorted], as a relation. *)
Definition str_le (s t : pystr) : Prop := PyStr.leb s t = true.

(** Two calls that return opposite verdicts. *)
Definition opposite_verdicts (r1 r2 : result pyvalue) : Prop :=
  exists verdict : bool, r1 = Return (PyBool verdict) /\ r2 = Return (PyBool (negb verdict)).

(** * Properties *)

Import instructions.

(** ** The model on the examples of the specification *)

Example split_ws_example : PyStr.split (str " ab  c ") = [str "ab"; str "c"].
Proof. reflexivity. Qed.

Example strip_example : PyStr.strip (str "  a b  ") = str "a b".
Proof. reflexivity. Qed.

Example split_four_asterisks : Re.split Re.divider (str "a ****b") = [str "a"; str "*b"].
Proof. reflexivity. Qed.

Example split_three_newlines :
  Re.split Re.blank_line (str "a" ++ [LF; LF; LF] ++ str "b") = [str "a"; LF :: str "b"].
Proof. reflexivity. Qed.

Example findall_stops_at_newline :
  Re.findall Re.brackets (str "[a" ++ [LF] ++ str "b] [c] []")
  = [str "[c]"; str "[]"].
Proof. reflexivity. Qed.

Example letter_frequency_banana :
  LetterFrequencyChecker.check_following (str "banana") (str "a") 3 (str "at least")
  = Return (PyBool true).
Proof. reflexivity. Qed.

Example repeat_prompt_first :
  RepeatPromptThenAnswer.check_following
    (str "Tell me a joke. Sure, here it is.") (str "Tell me a joke.")
  = Return (PyBool true).
Proof. reflexivity. Qed.

Example repeat_prompt_late :
  RepeatPromptThenAnswer.check_following
    (str "Sure, tell me a joke.") (str "Tell me a joke.")
  = Return (PyBool false).
Proof. reflexivity. Qed.

Example quotation_example :
  QuotationChecker.check_following ([DQUOTE] ++ str "Quoted." ++ [DQUOTE] ++ str " ")
  = Return (PyBool true).
Proof. reflexivity. Qed.

Example registry_size : size instructions_registry.INSTRUCTION_DICT = 25%nat.
Proof. reflexivity. Qed.

(** ** The comparator *)

Section comparator.
Context `{Libraries}.

Lemma relation_name_known r : relation_name r ∈ _COMPARISON_RELATION.
Proof.
  unfold _COMPARISON_RELATION. rewrite !elem_of_cons. destruct r; simpl; tauto.
Qed.

Lemma eqb_false_of_unknown (relation name : pystr) :
  relation ∉ _COMPARISON_RELATION -> name ∈ _COMPARISON_RELATION ->
  PyStr.eqb relation name = false.
Proof.
  intros Hn Hin. apply bool_decide_eq_false. intros ->. exact (Hn Hin).
Qed.

Lemma chain_unknown window actual threshold relation :
  relation ∉ _COMPARISON_RELATION ->
  chain window actual threshold relation = Return PyNone.
Proof.
  intros Hn. unfold chain.
  rewrite (eqb_false_of_unknown relation (str "at most") Hn (relation_name_known at_most)).
  rewrite (eqb_false_of_unknown relation (str "at least") Hn (relation_name_known at_least)).
  rewrite (eqb_false_of_unknown relation (str "around") Hn (relation_name_known around)).
  rewrite (eqb_false_of_unknown relation (str "less than") Hn (relation_name_known less_than)).
  reflexivity.
Qed.

Lemma chain_known window actual threshold r :
  chain window actual threshold (relation_name r)
  = Return (PyBool (bool_decide (satisfied window r actual threshold))).
Proof.
  destruct r; unfold chain; simpl; do 2 f_equal;
    apply eq_true_iff_eq; rewrite bool_decide_eq_true.
  - apply Z.leb_le.
  - rewrite Z.geb_le. lia.
  - apply Z.leb_le.
  - apply Z.ltb_lt.
Qed.

End comparator.

(** ** The built-in methods *)

Section PyStr_facts.
Import PyStr.

Lemma startswith_spec (s prefix : pystr) :
  startswith s prefix = true <-> exists rest, s = prefix ++ rest.
Proof.
  revert s. induction prefix as [|p prefix IH]; intros s; simpl.
  - split; [intros _; by exists s|done].
  - destruct s as [|c s].
    + split; [done|]. intros [rest Hrest]. discriminate.
    + rewrite andb_true_iff, IH. split.
      * intros [Hc [rest ->]]. apply Ascii.eqb_eq in Hc as ->. by exists rest.
      * intros [rest Hrest]. injection Hrest as -> ->.
        split; [apply Ascii.eqb_refl|by exists rest].
Qed.

Lemma endswith_spec (s suffix : pystr) :
  endswith s suffix = true <-> exists front, s = front ++ suffix.
Proof.
  unfold endswith. rewrite startswith_spec. split.
  - intros [rest Hrest]. exists (rev rest).
    apply (f_equal (@rev ascii)) in Hrest.
    rewrite rev_involutive, rev_app_distr, rev_involutive in Hrest. exact Hrest.
  - intros [front ->]. exists (rev front). apply rev_app_distr.
Qed.

Lemma startswith_app (prefix rest : pystr) : startswith (prefix ++ rest) prefix = true.
Proof. apply startswith_spec. by exists rest. Qed.

Lemma contains_spec (sub s : pystr) :
  contains sub s = true -> exists a b, s = a ++ sub ++ b.
Proof.
  induction s as [|c s IH]; simpl; rewrite orb_true_iff.
  - intros [[b ->]%startswith_spec|?]; [by exists [], b|done].
  - intros [[b ->]%startswith_spec|(a & b & ->)%IH]; [by exists [], b|].
    by exists (c :: a), b.
Qed.

Lemma lstrip_by_app p (s t : pystr) :
  lstrip_by p (s ++ t) = if forallb p s then lstrip_by p t else lstrip_by p s ++ t.
Proof.
  induction s as [|c s IH]; simpl; [reflexivity|].
  destruct (p c); simpl; [exact IH|reflexivity].
Qed.

Lemma lstrip_by_all p (s : pystr) : forallb p s = true -> lstrip_by p s = [].
Proof.
  induction s as [|c s IH]; simpl; [done|].
  destruct (p c); simpl; [exact IH|done].
Qed.

Lemma lstrip_by_head p (s : pystr) :
  match lstrip_by p s with
  | [] => forallb p s = true
  | c :: _ => p c = false
  end.
Proof.
  induction s as [|c s IH]; simpl; [done|].
  destruct (p c) eqn:Hc; simpl; [exact IH|exact Hc].
Qed.

Lemma lstrip_by_fixed p c (s : pystr) : p c = false -> lstrip_by p (c :: s) = c :: s.
Proof. intros Hc. simpl. by rewrite Hc. Qed.

Lemma lstrip_by_idemp p (s : pystr) : lstrip_by p (lstrip_by p s) = lstrip_by p s.
Proof.
  pose proof (lstrip_by_head p s) as Hhead.
  destruct (lstrip_by p s) as [|c t]; [reflexivity|]. by apply lstrip_by_fixed.
Qed.

Lemma rstrip_by_cons p c (s : pystr) :
  rstrip_by p (c :: s)
  = match rstrip_by p s with
    | [] => if p c then [] else [c]
    | kept => c :: kept
    end.
Proof.
  unfold rstrip_by. simpl rev at 2. rewrite lstrip_by_app.
  pose proof (lstrip_by_head p (rev s)) as Hhead.
  destruct (lstrip_by p (rev s)) as [|d t] eqn:Hstrip.
  - rewrite Hhead. simpl. by destruct (p c).
  - assert (forallb p (rev s) = false) as ->.
    { apply not_true_is_false. intros Hall.
      rewrite (lstrip_by_all _ _ Hall) in Hstrip. discriminate. }
    rewrite rev_app_distr. simpl.
    destruct (rev t ++ [d]) eqn:Hrev; [|reflexivity].
    by destruct (rev t).
Qed.

Lemma rstrip_by_idemp p (s : pystr) : rstrip_by p (rstrip_by p s) = rstrip_by p s.
Proof.
  unfold rstrip_by. by rewrite rev_involutive, lstrip_by_idemp.
Qed.

(** Stripping on the right keeps a first character that is kept on the
    left. *)
Lemma lstrip_rstrip_by p (s : pystr) :
  lstrip_by p s = s -> lstrip_by p (rstrip_by p s) = rstrip_by p s.
Proof.
  destruct s as [|c s]; [reflexivity|]. intros Hfixed.
  pose proof (lstrip_by_head p (c :: s)) as Hhead. rewrite Hfixed in Hhead.
  rewrite rstrip_by_cons.
  destruct (rstrip_by p s); [by rewrite Hhead; apply lstrip_by_fixed|].
  by apply lstrip_by_fixed.
Qed.

Lemma strip_by_idemp p (s : pystr) : strip_by p (strip_by p s) = strip_by p s.
Proof.
  unfold strip_by.
  rewrite lstrip_rstrip_by by apply lstrip_by_idemp.
  apply rstrip_by_idemp.
Qed.

Lemma strip_idemp (s : pystr) : strip (strip s) = strip s.
Proof. apply strip_by_idemp. Qed.

Lemma strip_by_head p (s : pystr) :
  match strip_by p s with
  | [] => True
  | c :: _ => p c = false
  end.
Proof.
  pose proof (lstrip_by_head p (strip_by p s)) as Hhead.
  unfold strip_by in *.
  rewrite lstrip_rstrip_by in Hhead by apply lstrip_by_idemp.
  by destruct (rstrip_by p (lstrip_by p s)).
Qed.

Lemma split_from_cons word c (s : pystr) :
  split_from word (c :: s)
  = if isspace c
    then match word with
         | [] => split_from [] s
         | _ => rev word :: split_from [] s
         end
    else split_from (c :: word) s.
Proof. reflexivity. Qed.

Lemma split_from_not_nil' word (s : pystr) : word <> [] -> split_from word s <> [].
Proof.
  revert word. induction s as [|c s IH]; intros word Hword.
  - simpl. by destruct word.
  - rewrite split_from_cons. destruct (isspace c); [by destruct word|by apply IH].
Qed.

Lemma split_lstrip (s : pystr) : split (lstrip s) = split s.
Proof.
  unfold split, lstrip. induction s as [|c s IH]; [reflexivity|].
  rewrite split_from_cons. simpl. destruct (isspace c) eqn:Hc; [exact IH|].
  by rewrite split_from_cons, Hc.
Qed.

Lemma split_from_rstrip word (s : pystr) :
  split_from word (rstrip s) = split_from word s.
Proof.
  unfold rstrip. revert word. induction s as [|c s IH]; intros word; [reflexivity|].
  rewrite rstrip_by_cons, (split_from_cons word c s).
  destruct (rstrip_by isspace s) as [|d kept] eqn:Hkept.
  - destruct (isspace c) eqn:Hc.
    + rewrite <- (IH []). simpl. by destruct word.
    + rewrite <- (IH (c :: word)). simpl. by rewrite Hc.
  - rewrite split_from_cons. destruct (isspace c); [|apply IH].
    by rewrite <- (IH []).
Qed.

Lemma split_strip (s : pystr) : split (strip s) = split s.
Proof.
  unfold strip, strip_by. fold (lstrip s). fold (rstrip (lstrip s)).
  unfold split at 1. rewrite split_from_rstrip. apply split_lstrip.
Qed.

(** A text that is not blank has a first token. *)
Lemma split_not_nil (s : pystr) : truthy (strip s) = true -> split s <> [].
Proof.
  intros Htruthy. rewrite <- split_strip.
  pose proof (strip_by_head isspace s) as Hhead. fold (strip s) in Hhead.
  destruct (strip s) as [|c r]; [done|].
  unfold split. rewrite split_from_cons, Hhead. by apply split_from_not_nil'.
Qed.

Lemma split_nil (s : pystr) : truthy (strip s) = false -> split s = [].
Proof.
  intros Hfalse. rewrite <- split_strip. by destruct (strip s).
Qed.

Lemma forallb_rev {A} (p : A -> bool) (l : list A) :
  forallb p (rev l) = forallb p l.
Proof.
  induction l as [|x l IH]; [reflexivity|].
  simpl. rewrite forallb_app, IH. simpl. rewrite andb_true_r. apply andb_comm.
Qed.

Lemma rev_not_nil {A} (l : list A) : l <> [] -> rev l <> [].
Proof.
  intros Hne Hrev. apply (f_equal (@length _)) in Hrev.
  rewrite length_rev in Hrev. by destruct l.
Qed.

Lemma split_from_spaceless word (s : pystr) :
  forallb (fun c => negb (isspace c)) word = true ->
  Forall spaceless (split_from word s).
Proof.
  revert word. induction s as [|c s IH]; intros word Hword.
  - simpl. destruct word as [|d word]; [constructor|].
    repeat constructor; [by apply rev_not_nil|by rewrite forallb_rev].
  - rewrite split_from_cons. destruct (isspace c) eqn:Hc.
    + destruct word as [|d word]; [by apply IH|].
      constructor; [|by apply IH].
      split; [by apply rev_not_nil|by rewrite forallb_rev].
    + apply IH. simpl. by rewrite Hc.
Qed.

Lemma strip_spaceless (word : pystr) : spaceless word -> strip word = word.
Proof.
  intros [Hne Hall]. unfold strip, strip_by.
  assert (Hl : lstrip_by isspace word = word).
  { destruct word as [|c word]; [done|]. simpl in *.
    apply andb_true_iff in Hall as [Hc _]. by destruct (isspace c). }
  rewrite Hl. unfold rstrip_by.
  assert (Hr : lstrip_by isspace (rev word) = rev word).
  { rewrite <- forallb_rev in Hall. destruct (rev word) as [|c r]; [done|].
    simpl in *. apply andb_true_iff in Hall as [Hc _]. by destruct (isspace c). }
  rewrite Hr. apply rev_involutive.
Qed.

End PyStr_facts.

(** ** Splitting at the matches of a pattern *)

Section split.
Variable m : Re.matcher.

Lemma split_from_cons_inside k seg c (s : pystr) :
  Re.split_from m (S k) seg (c :: s) = Re.split_from m k seg s.
Proof. reflexivity. Qed.

Lemma split_from_cons_outside seg c (s : pystr) :
  Re.split_from m 0 seg (c :: s)
  = match m (c :: s) with
    | Some (S n) => rev seg :: Re.split_from m n [] s
    | _ => Re.split_from m 0 (c :: seg) s
    end.
Proof. reflexivity. Qed.

Lemma split_from_not_nil inside seg (s : pystr) : Re.split_from m inside seg s <> [].
Proof.
  revert inside seg. induction s as [|c s IH]; intros inside seg; [done|].
  cbn [Re.split_from]. destruct inside; [|apply IH].
  destruct (m (c :: s)) as [[|n]|]; done || apply IH.
Qed.

Lemma interleave_cons segment segments separator separators :
  interleave (segment :: segments) (separator :: separators)
  = segment ++ separator ++ interleave segments separators.
Proof. reflexivity. Qed.

(** The segments and the matches between them make up the text. *)
Lemma split_from_interleave (P : pystr -> Prop) :
  (forall s n, m s = Some n -> (n <= length s)%nat /\ P (take n s)) ->
  forall (s : pystr) inside seg, (inside <= length s)%nat ->
  exists separators,
    length (Re.split_from m inside seg s) = S (length separators)
    /\ Forall P separators
    /\ interleave (Re.split_from m inside seg s) separators = rev seg ++ drop inside s.
Proof.
  intros Hm s. induction s as [|c s IH]; intros inside seg Hinside.
  - exists []. destruct inside; [|simpl in Hinside; lia].
    simpl. by rewrite app_nil_r.
  - destruct inside as [|k].
    + rewrite split_from_cons_outside.
      destruct (m (c :: s)) as [[|n]|] eqn:Hmatch.
      * destruct (IH 0%nat (c :: seg)) as (seps & Hlen & HP & Hjoin); [lia|].
        exists seps. repeat split; [done..|].
        rewrite Hjoin. simpl. by rewrite <- app_assoc.
      * destruct (Hm _ _ Hmatch) as [Hn HPn]. simpl in Hn.
        destruct (IH n []) as (seps & Hlen & HP & Hjoin); [lia|].
        exists (take (S n) (c :: s) :: seps). split; [simpl; by rewrite Hlen|].
        split; [by constructor|].
        rewrite interleave_cons, Hjoin, app_nil_l.
        change (drop n s) with (drop (S n) (c :: s)). by rewrite take_drop.
      * destruct (IH 0%nat (c :: seg)) as (seps & Hlen & HP & Hjoin); [lia|].
        exists seps. repeat split; [done..|].
        rewrite Hjoin. simpl. by rewrite <- app_assoc.
    + rewrite split_from_cons_inside. simpl in Hinside.
      destruct (IH k seg) as (seps & Hlen & HP & Hjoin); [lia|]. by exists seps.
Qed.

(** No segment holds a place where the pattern was bound to match. *)
Lemma split_from_clean (mark : pystr) :
  (forall s, PyStr.startswith s mark = true -> exists n, m s = Some (S n)) ->
  forall (s : pystr) inside seg,
  (forall a b, rev seg = a ++ b -> b <> [] -> PyStr.startswith (b ++ drop inside s) mark = false) ->
  (inside = 0%nat \/ seg = []) ->
  Forall (fun segment => forall a b, segment = a ++ b -> b <> [] ->
                         PyStr.startswith b mark = false)
    (Re.split_from m inside seg s).
Proof.
  intros Hmark s. induction s as [|c s IH]; intros inside seg Hseg Hstate.
  - repeat constructor. intros a b Hab Hb.
    specialize (Hseg a b Hab Hb). rewrite drop_nil, app_nil_r in Hseg. done.
  - destruct inside as [|k].
    + rewrite split_from_cons_outside.
      assert (Hdone : forall a b, rev seg = a ++ b -> b <> [] ->
                        PyStr.startswith b mark = false).
      { intros a b Hab Hb. apply not_true_is_false. intros Hstart.
        apply startswith_spec in Hstart as [rest ->].
        specialize (Hseg a _ Hab Hb). apply not_true_iff_false in Hseg. apply Hseg.
        apply startswith_spec. exists (rest ++ c :: s). by rewrite <- app_assoc. }
      assert (Hnext : m (c :: s) = None \/ m (c :: s) = Some 0%nat ->
                forall a b, rev (c :: seg) = a ++ b -> b <> [] ->
                  PyStr.startswith (b ++ drop 0 s) mark = false).
      { intros Hno a b Hab Hb. simpl in Hab. rewrite drop_0.
        destruct (decide (b = [c])) as [->|Hbc].
        - apply not_true_is_false. intros Hstart.
          destruct (Hmark (c :: s) Hstart) as [n Hn].
          destruct Hno as [Hno|Hno]; rewrite Hno in Hn; discriminate.
        - assert (exists b', b = b' ++ [c] /\ b' <> []) as (b' & -> & Hb').
          { destruct (exists_last (l := b) Hb) as (b' & d & ->).
            rewrite app_assoc in Hab. apply app_inj_tail in Hab as [_ <-].
            exists b'. split; [done|]. intros ->. done. }
          rewrite app_assoc in Hab. apply app_inj_tail in Hab as [Hab _].
          specialize (Hseg a b' Hab Hb'). rewrite drop_0 in Hseg.
          by rewrite <- app_assoc. }
      destruct (m (c :: s)) as [[|n]|] eqn:Hmatch.
      * apply IH; [apply Hnext; by right|by left].
      * constructor; [exact Hdone|]. apply IH; [|by right].
        intros a b Hab Hb. by destruct a.
      * apply IH; [apply Hnext; by left|by left].
    + destruct Hstate as [? | ->]; [done|]. rewrite split_from_cons_inside.
      apply IH; [|by right]. intros a b Hab Hb. by destruct a.
Qed.

End split.

Lemma spaces_spec (s : pystr) :
  (Re.spaces s <= length s)%nat /\ forallb PyStr.isspace (take (Re.spaces s) s) = true.
Proof.
  induction s as [|c s [IHlen IHall]]; [done|].
  simpl. destruct (PyStr.isspace c) eqn:Hc; simpl; [|split; [lia|done]].
  rewrite Hc. split; [lia|done].
Qed.

(** A match of the divider pattern is a divider. *)
Lemma divider_sound (s : pystr) (n : nat) :
  Re.divider s = Some n -> (n <= length s)%nat /\ is_divider (take n s).
Proof.
  unfold Re.divider. destruct (spaces_spec s) as [Hk Hbefore].
  generalize dependent (Re.spaces s). intros k Hk Hbefore.
  destruct (PyStr.startswith (drop k s) (str "***")) eqn:Hstars; [|done].
  apply startswith_spec in Hstars as [rest Hrest]. rewrite Hrest.
  change (drop 3 (str "***" ++ rest)) with rest.
  destruct (spaces_spec rest) as [Hj Hafter].
  generalize dependent (Re.spaces rest). intros j Hj Hafter [= <-].
  assert (Hs : take k s ++ str "***" ++ rest = s) by by rewrite <- Hrest, take_drop.
  assert (Hlen : length s = (k + 3 + length rest)%nat).
  { rewrite <- Hs. rewrite !length_app, length_take, Nat.min_l by lia. simpl. lia. }
  split; [lia|]. exists (take k s), (take j rest). split; [|done].
  rewrite <- Hs at 1. rewrite <- Nat.add_assoc.
  rewrite take_app_add' by (rewrite length_take; lia). f_equal.
Qed.

Lemma divider_complete_positive (s : pystr) : Re.divider s = Some 0%nat -> False.
Proof.
  unfold Re.divider.
  destruct (PyStr.startswith (drop (Re.spaces s) s) (str "***")); [|done].
  intros [= Hlen]. lia.
Qed.

(** The divider pattern matches wherever three asterisks stand. *)
Lemma divider_complete (s : pystr) :
  PyStr.startswith s (str "***") = true -> exists n, Re.divider s = Some (S n).
Proof.
  intros Hstars. pose proof Hstars as [rest ->]%startswith_spec.
  unfold Re.divider. by eexists.
Qed.

(** The split of [length_constraints:number_paragraphs]: the segments,
    with a divider between each two of them, make up the response, and no
    segment holds three asterisks in a row. *)
Lemma split_divider_spec (value : pystr) :
  exists separators,
    length (Re.split Re.divider value) = S (length separators)
    /\ Forall is_divider separators
    /\ interleave (Re.split Re.divider value) separators = value
    /\ Forall (fun segment => PyStr.contains (str "***") segment = false)
         (Re.split Re.divider value).
Proof.
  destruct (split_from_interleave Re.divider is_divider divider_sound value 0%nat [])
    as (separators & Hlen & Hdividers & Hjoin); [lia|].
  exists separators. split; [exact Hlen|]. split; [exact Hdividers|].
  split; [exact Hjoin|].
  eapply Forall_impl;
    [apply (split_from_clean Re.divider (str "***") divider_complete value 0%nat [])|].
  - intros a b Hab Hb. by destruct a, b.
  - by left.
  - intros segment Hclean. apply not_true_is_false.
    intros (a & b & ->)%contains_spec.
    pose proof (startswith_app (str "***") b) as Hstars.
    by rewrite (Hclean a (str "***" ++ b)) in Hstars.
Qed.

(** *** The segments between dividers carry no whitespace at the divider *)

Lemma forallb_lstrip_by p (s : pystr) :
  forallb p (PyStr.lstrip_by p s) = true -> forallb p s = true.
Proof.
  induction s as [|c s IH]; [done|]. simpl.
  destruct (p c) eqn:Hc; simpl; [exact IH|]. by rewrite Hc.
Qed.

(** A blank text holds nothing but whitespace. *)
Lemma blank_spec (s : pystr) : blank s = true -> forallb PyStr.isspace s = true.
Proof.
  unfold blank, PyStr.strip, PyStr.strip_by, PyStr.rstrip_by. intros Hblank.
  apply forallb_lstrip_by.
  destruct (rev (PyStr.lstrip_by PyStr.isspace (rev (PyStr.lstrip_by PyStr.isspace s))))
    as [|c r] eqn:Hrev; [|done].
  apply (f_equal (@rev ascii)) in Hrev. rewrite rev_involutive in Hrev. simpl in Hrev.
  pose proof (lstrip_by_head PyStr.isspace (rev (PyStr.lstrip_by PyStr.isspace s)))
    as Hhead.
  rewrite Hrev in Hhead. by rewrite forallb_rev in Hhead.
Qed.

Lemma divider_extends_left (c : ascii) (s : pystr) :
  PyStr.isspace c = true -> Re.divider s <> None -> Re.divider (c :: s) <> None.
Proof.
  unfold Re.divider. intros Hc.
  change (Re.spaces (c :: s)) with (if PyStr.isspace c then S (Re.spaces s) else 0%nat).
  rewrite Hc. change (drop (S (Re.spaces s)) (c :: s)) with (drop (Re.spaces s) s).
  by destruct (PyStr.startswith (drop (Re.spaces s) s) (str "***")).
Qed.

Lemma spaces_maximal (s : pystr) c rest :
  drop (Re.spaces s) s = c :: rest -> PyStr.isspace c = false.
Proof.
  induction s as [|d s IH]; [done|]. simpl.
  destruct (PyStr.isspace d) eqn:Hd; simpl; [exact IH|]. by intros [= <- _].
Qed.

(** After a divider comes a character that is not whitespace, or nothing. *)
Lemma divider_maximal (s : pystr) (n : nat) c rest :
  Re.divider s = Some n -> drop n s = c :: rest -> PyStr.isspace c = false.
Proof.
  unfold Re.divider.
  destruct (PyStr.startswith (drop (Re.spaces s) s) (str "***")) eqn:Hstars; [|done].
  apply startswith_spec in Hstars as [after Hafter]. rewrite Hafter.
  change (drop 3 (str "***" ++ after)) with after. intros [= <-].
  rewrite <- !drop_drop, Hafter.
  change (drop 3 (str "***" ++ after)) with after. apply spaces_maximal.
Qed.

(** A segment that a divider ends does not end with whitespace. *)
Lemma split_divider_no_trailing (s : pystr) inside seg :
  (inside = 0%nat \/ seg = []) ->
  match seg with
  | [] => True
  | c :: _ => Re.divider (c :: drop inside s) = None
  end ->
  Forall (fun segment => forall front c, segment = front ++ [c] -> PyStr.isspace c = false)
    (removelast (Re.split_from Re.divider inside seg s)).
Proof.
  revert inside seg. induction s as [|c s IH]; intros inside seg Hstate Hseg.
  - constructor.
  - destruct inside as [|k].
    + rewrite split_from_cons_outside. rewrite drop_0 in Hseg.
      destruct (Re.divider (c :: s)) as [[|n]|] eqn:Hmatch.
      * by destruct (divider_complete_positive _ Hmatch).
      * pose proof (split_from_not_nil Re.divider n [] s) as Hne.
        destruct (Re.split_from Re.divider n [] s) as [|next rest] eqn:Hrest; [done|].
        change (removelast (rev seg :: next :: rest))
          with (rev seg :: removelast (next :: rest)).
        constructor; [|rewrite <- Hrest; apply IH; [by right|done]].
        intros front d Hfront. destruct seg as [|e seg]; [by destruct front|].
        simpl in Hfront. apply app_inj_tail in Hfront as [_ <-].
        apply not_true_is_false. intros He.
        apply (divider_extends_left e (c :: s) He); [by rewrite Hmatch|done].
      * apply IH; [by left|]. by rewrite drop_0.
    + destruct Hstate as [? | ->]; [done|]. rewrite split_from_cons_inside.
      apply IH; [by right|done].
Qed.

(** A segment that a divider starts does not start with whitespace. *)
Lemma split_divider_no_leading (s : pystr) inside seg :
  (inside = 0%nat \/ seg = []) ->
  match rev seg with
  | c :: _ => PyStr.isspace c = false
  | [] => forall c rest, drop inside s = c :: rest -> PyStr.isspace c = false
  end ->
  Forall (fun segment => forall c rest, segment = c :: rest -> PyStr.isspace c = false)
    (Re.split_from Re.divider inside seg s).
Proof.
  revert inside seg. induction s as [|c s IH]; intros inside seg Hstate Hseg.
  - repeat constructor. simpl. intros d rest Hd. by rewrite Hd in Hseg.
  - destruct inside as [|k].
    + rewrite split_from_cons_outside.
      assert (Hdone : forall d rest, rev seg = d :: rest -> PyStr.isspace d = false)
        by (intros d rest Hd; by rewrite Hd in Hseg).
      assert (Hnext : match rev (c :: seg) with
                      | d :: _ => PyStr.isspace d = false
                      | [] => forall d rest, drop 0 s = d :: rest -> PyStr.isspace d = false
                      end).
      { simpl. destruct (rev seg) as [|d r] eqn:Hrev; simpl; [|done].
        by apply (Hseg c s). }
      destruct (Re.divider (c :: s)) as [[|n]|] eqn:Hmatch.
      * apply IH; [by left|done].
      * constructor; [done|]. apply IH; [by right|]. simpl.
        intros d rest Hd. by apply (divider_maximal (c :: s) (S n) d rest).
      * apply IH; [by left|done].
    + destruct Hstate as [? | ->]; [done|]. rewrite split_from_cons_inside.
      apply IH; [by right|done].
Qed.

Lemma split_divider_tail_no_leading (s : pystr) seg :
  Forall (fun segment => forall c rest, segment = c :: rest -> PyStr.isspace c = false)
    (tail (Re.split_from Re.divider 0 seg s)).
Proof.
  revert seg. induction s as [|c s IH]; intros seg; [constructor|].
  rewrite split_from_cons_outside.
  destruct (Re.divider (c :: s)) as [[|n]|] eqn:Hmatch; [apply IH| |apply IH].
  simpl. apply split_divider_no_leading; [by right|]. simpl.
  intros d rest Hd. by apply (divider_maximal (c :: s) (S n) d rest).
Qed.

(** In a response that holds a divider, a segment without a word is an empty
    string: the divider has taken the whitespace around it. *)
Lemma split_divider_blank_nil (value : pystr) :
  (2 <= length (Re.split Re.divider value))%nat ->
  Forall (fun segment => blank segment = true -> segment = [])
    (Re.split Re.divider value).
Proof.
  unfold Re.split. intros Hlen.
  pose proof (split_divider_no_trailing value 0 [] (or_introl eq_refl) I) as Hfront.
  pose proof (split_divider_tail_no_leading value []) as Htail.
  destruct (Re.split_from Re.divider 0 [] value) as [|first [|second rest]];
    [simpl in Hlen; lia..|].
  change (removelast (first :: second :: rest))
    with (first :: removelast (second :: rest)) in Hfront.
  apply Forall_cons in Hfront as [Hfirst _]. simpl in Htail.
  constructor.
  - intros Hblank%blank_spec.
    destruct (decide (first = [])) as [|Hne]; [done|].
    destruct (exists_last Hne) as (front & c & ->).
    rewrite forallb_app in Hblank. simpl in Hblank.
    by rewrite (Hfirst front c eq_refl), andb_false_r in Hblank.
  - eapply Forall_impl; [exact Htail|]. simpl. intros segment Hsegment Hblank%blank_spec.
    destruct segment as [|c r]; [done|].
    simpl in Hblank. by rewrite (Hsegment c r eq_refl) in Hblank.
Qed.




(** ** The comparator-based checkers *)

Section comparator_checkers.
Context `{Libraries}.

Lemma NumberOfSentences_chain value num_sentences relation :
  NumberOfSentences.check_following value num_sentences relation
  = chain 2 (count_sentences value) num_sentences relation.
Proof. reflexivity. Qed.

Lemma NumberOfWords_chain value num_words relation :
  NumberOfWords.check_following value num_words relation
  = chain 25 (count_words value) num_words relation.
Proof. reflexivity. Qed.

Lemma KeywordFrequencyChecker_chain value keyword frequency relation :
  KeywordFrequencyChecker.check_following value keyword frequency relation
  = chain 5
      (Z.of_nat (length (re_findall
                           (str "\b" ++ Re.escape (PyStr.strip keyword) ++ str "\b")
                           [Re.IGNORECASE] value)))
      frequency relation.
Proof. reflexivity. Qed.

Lemma LetterFrequencyChecker_chain value letter let_frequency let_relation :
  LetterFrequencyChecker.check_following value letter let_frequency let_relation
  = chain 5 (PyStr.Counter_get (PyStr.lower value) (PyStr.lower (PyStr.strip letter)))
      let_frequency let_relation.
Proof. reflexivity. Qed.

Lemma CapitalWordFrequencyChecker_chain value capital_frequency capital_relation :
  CapitalWordFrequencyChecker.check_following value capital_frequency capital_relation
  = chain 5 (Z.of_nat (length (List.filter PyStr.isupper (word_tokenize value))))
      capital_frequency capital_relation.
Proof. reflexivity. Qed.

End comparator_checkers.

(** C1. With a relation that is none of the four, a comparator-based checker
    does not raise: the chain of comparisons ends without a [return], and the
    call gives [None] for every response, although the docstring of
    [NumberOfSentences.check_following] announces a [ValueError]. *)
Theorem unknown_relation_returns_None `{Libraries}
  (value keyword letter : pystr) (threshold : Z) (relation : pystr) :
  relation ∉ _COMPARISON_RELATION ->
  NumberOfSentences.check_following value threshold relation = Return PyNone
  /\ KeywordFrequencyChecker.check_following value keyword threshold relation
     = Return PyNone
  /\ NumberOfWords.check_following value threshold relation = Return PyNone
  /\ LetterFrequencyChecker.check_following value letter threshold relation
     = Return PyNone
  /\ CapitalWordFrequencyChecker.check_following value threshold relation
     = Return PyNone.
Proof.
  intros Hn.
  rewrite NumberOfSentences_chain, KeywordFrequencyChecker_chain, NumberOfWords_chain,
    LetterFrequencyChecker_chain, CapitalWordFrequencyChecker_chain.
  rewrite !chain_unknown by exact Hn. repeat split.
Qed.

Lemma exactly_unknown : str "exactly" ∉ _COMPARISON_RELATION.
Proof. unfold _COMPARISON_RELATION. rewrite !elem_of_cons, elem_of_nil. 
  intros [?|[?|[?|[?|[]]]]]; discriminate. Qed.

Lemma unknown_relation_returns_None_witness :
  (str "exactly" ∉ _COMPARISON_RELATION)
  /\ @NumberOfSentences.check_following sample_libraries (str "One. Two.") 2
       (str "exactly") = Return PyNone.
Proof.
  split; [exact exactly_unknown|].
  exact (proj1 (@unknown_relation_returns_None sample_libraries (str "One. Two.")
                  [] [] 2 (str "exactly") exactly_unknown)).
Defined.

(** C2. For every response, threshold and relation among the four, a
    comparator-based checker returns the boolean that the relation asks for:
    at most is [actual <= threshold], at least is [actual >= threshold],
    around is [|actual - threshold| <= window] and less than is
    [actual < threshold], with the window of the family (2 for sentences, 25
    for words, 5 for occurrences).  When the count equals the threshold, at
    most and at least are satisfied and less than is not. *)
Theorem comparator_verdict `{Libraries}
  (value keyword letter : pystr) (threshold : Z) (r : relation) :
  NumberOfSentences.check_following value threshold (relation_name r)
  = Return (PyBool (bool_decide (satisfied 2 r (count_sentences value) threshold)))
  /\ NumberOfWords.check_following value threshold (relation_name r)
     = Return (PyBool (bool_decide (satisfied 25 r (count_words value) threshold)))
  /\ KeywordFrequencyChecker.check_following value keyword threshold (relation_name r)
     = Return (PyBool (bool_decide (satisfied 5 r
         (Z.of_nat (length (re_findall
                              (str "\b" ++ Re.escape (PyStr.strip keyword) ++ str "\b")
                              [Re.IGNORECASE] value)))
         threshold)))
  /\ LetterFrequencyChecker.check_following value letter threshold (relation_name r)
     = Return (PyBool (bool_decide (satisfied 5 r
         (PyStr.Counter_get (PyStr.lower value) (PyStr.lower (PyStr.strip letter)))
         threshold)))
  /\ CapitalWordFrequencyChecker.check_following value threshold (relation_name r)
     = Return (PyBool (bool_decide (satisfied 5 r
         (Z.of_nat (length (List.filter PyStr.isupper (word_tokenize value))))
         threshold)))
  /\ NumberOfSentences.check_following value (count_sentences value) (str "at most")
     = Return (PyBool true)
  /\ NumberOfSentences.check_following value (count_sentences value) (str "at least")
     = Return (PyBool true)
  /\ NumberOfSentences.check_following value (count_sentences value) (str "less than")
     = Return (PyBool false).
Proof.
  rewrite !NumberOfSentences_chain, KeywordFrequencyChecker_chain, NumberOfWords_chain,
    LetterFrequencyChecker_chain, CapitalWordFrequencyChecker_chain.
  rewrite !chain_known.
  change (str "at most") with (relation_name at_most).
  change (str "at least") with (relation_name at_least).
  change (str "less than") with (relation_name less_than).
  rewrite !chain_known.
  rewrite (bool_decide_eq_true_2 (satisfied 2 at_most _ _)) by (simpl; lia).
  rewrite (bool_decide_eq_true_2 (satisfied 2 at_least _ _)) by (simpl; lia).
  rewrite (bool_decide_eq_false_2 (satisfied 2 less_than _ _)) by (simpl; lia).
  repeat split.
Qed.

(** ** [detectable_content:number_placeholders] *)

Lemma findall_empty_brackets (n : nat) :
  Re.findall Re.brackets (PyStr.times (str "[]") n) = replicate n (str "[]").
Proof.
  unfold Re.findall. induction n as [|n IH]; [reflexivity|].
  cbn. f_equal. exact IH.
Qed.

(** C10. A pair of brackets with nothing inside is a placeholder: a response
    made of [n] copies of it holds [n] placeholders, and it satisfies the
    constraint exactly when [n >= num_placeholders]. *)
Theorem empty_brackets_are_placeholders (n : nat) (num_placeholders : Z) :
  (1 <= n)%nat ->
  length (Re.findall Re.brackets (PyStr.times (str "[]") n)) = n
  /\ PlaceholderChecker.check_following (PyStr.times (str "[]") n) num_placeholders
     = Return (PyBool (bool_decide (Z.of_nat n >= num_placeholders))).
Proof.
  intros _. unfold PlaceholderChecker.check_following.
  rewrite findall_empty_brackets, length_replicate. split; [reflexivity|].
  do 2 f_equal. apply eq_true_iff_eq.
  rewrite bool_decide_eq_true, Z.geb_le. lia.
Qed.

Lemma empty_brackets_are_placeholders_witness :
  (1 <= 3)%nat
  /\ PlaceholderChecker.check_following (str "[][][]") 3 = Return (PyBool true)
  /\ PlaceholderChecker.check_following (str "[][][]") 4 = Return (PyBool false).
Proof.
  split; [lia|]. split.
  - exact (proj2 (empty_brackets_are_placeholders 3 3 (le_S _ _ (le_S _ _ (le_n 1))))).
  - exact (proj2 (empty_brackets_are_placeholders 3 4 (le_S _ _ (le_S _ _ (le_n 1))))).
Defined.

(** ** [length_constraints:number_paragraphs] *)

Section number_paragraphs.
Import ParagraphChecker.

Lemma count_paragraphs_cons (len index : nat) paragraph rest (num : Z) :
  count_paragraphs len index (paragraph :: rest) num
  = if blank paragraph
    then if (index =? 0)%nat || (Z.of_nat index =? Z.of_nat len - 1)
         then count_paragraphs len (S index) rest (num - 1)
         else None
    else count_paragraphs len (S index) rest num.
Proof. reflexivity. Qed.

(** After the first segment, the loop leaves with [return False] at an empty
    segment that is not the last one. *)
Lemma count_paragraphs_tail (len index : nat) (paragraphs : list pystr) (num : Z) :
  (0 < index)%nat -> paragraphs <> [] -> (index + length paragraphs = len)%nat ->
  count_paragraphs len index paragraphs num
  = if existsb blank (removelast paragraphs) then None
    else match last paragraphs with
         | Some paragraph => Some (if blank paragraph then num - 1 else num)
         | None => Some num
         end.
Proof.
  revert index num.
  induction paragraphs as [|paragraph rest IH]; intros index num Hpos Hne Hlen; [done|].
  destruct rest as [|next rest].
  - rewrite count_paragraphs_cons. cbn [count_paragraphs removelast existsb last].
    simpl in Hlen.
    destruct (blank paragraph); [|reflexivity].
    replace (Z.of_nat index =? Z.of_nat len - 1) with true
      by (symmetry; apply Z.eqb_eq; lia).
    rewrite orb_true_r. reflexivity.
  - rewrite count_paragraphs_cons.
    change (removelast (paragraph :: next :: rest))
      with (paragraph :: removelast (next :: rest)).
    change (last (paragraph :: next :: rest)) with (last (next :: rest)).
    cbn [existsb]. simpl in Hlen.
    destruct (blank paragraph).
    + replace (index =? 0)%nat with false by (symmetry; apply Nat.eqb_neq; lia).
      replace (Z.of_nat index =? Z.of_nat len - 1) with false
        by (symmetry; apply Z.eqb_neq; lia).
      reflexivity.
    + cbn [orb]. apply IH; [lia|done|simpl; lia].
Qed.

Lemma count_paragraphs_spec (paragraphs : list pystr) :
  paragraphs <> [] ->
  count_paragraphs (length paragraphs) 0 paragraphs (Z.of_nat (length paragraphs))
  = if existsb blank (interior paragraphs) then None
    else Some (Z.of_nat (length (discard_ends paragraphs))).
Proof.
  destruct paragraphs as [|first rest]; [done|]. intros _.
  destruct rest as [|second rest].
  - rewrite count_paragraphs_cons. cbn [count_paragraphs length Nat.eqb orb].
    unfold interior, discard_ends. cbn [tail removelast existsb drop_blank_head].
    destruct (blank first) eqn:Hfirst; cbn [rev app drop_blank_head];
      rewrite ?Hfirst; reflexivity.
  - rewrite count_paragraphs_cons. cbn [Nat.eqb orb].
    unfold interior. cbn [tail].
    assert (Hlast : exists final, last (second :: rest) = Some final
                      /\ rev (second :: rest) = final :: rev (removelast (second :: rest))).
    { destruct (exists_last (l := second :: rest)) as (front & final & Heq); [done|].
      exists final. rewrite Heq, last_snoc, removelast_last, rev_app_distr. done. }
    destruct Hlast as (final & Hfinal & Hrev).
    assert (Hfront : length (removelast (second :: rest)) = length rest).
    { apply (f_equal (@length _)) in Hrev.
      rewrite length_rev in Hrev. cbn [length] in Hrev. rewrite length_rev in Hrev. lia. }
    unfold discard_ends. cbn [drop_blank_head].
    destruct (blank first) eqn:Hfirst.
    + rewrite count_paragraphs_tail by (done || lia).
      destruct (existsb blank (removelast (second :: rest))); [reflexivity|].
      rewrite Hfinal, Hrev. cbn [drop_blank_head].
      destruct (blank final); f_equal; rewrite ?length_rev; cbn [length];
        rewrite ?length_rev, ?Hfront; cbn [length]; lia.
    + rewrite count_paragraphs_tail by (done || lia).
      destruct (existsb blank (removelast (second :: rest))); [reflexivity|].
      rewrite Hfinal.
      change (rev (first :: second :: rest)) with (rev (second :: rest) ++ [first]).
      rewrite Hrev. cbn [app drop_blank_head].
      destruct (blank final); f_equal; rewrite ?length_rev; cbn [length];
        rewrite ?length_app, ?length_rev, ?Hfront; cbn [length]; lia.
Qed.

End number_paragraphs.

(** C5. The response is split at each divider, a run of three asterisks
    together with the whitespace around it: the segments, with a divider
    between each two of them, make up the response, and no segment holds three
    asterisks in a row.  A segment is empty when it holds no word, and in a
    response that holds a divider such a segment is the empty string.  An
    empty segment that is neither the first nor the last one makes the check
    fail; otherwise an empty first and an empty last segment are discarded and
    the check holds exactly when the number of segments that remain is
    [num_paragraphs].  The two responses of the specification have three
    paragraphs and one paragraph. *)
Theorem number_paragraphs_verdict (value : pystr) (num_paragraphs : Z) :
  let segments := Re.split Re.divider value in
  (exists separators,
     length segments = S (length separators)
     /\ Forall is_divider separators
     /\ interleave segments separators = value
     /\ Forall (fun segment => PyStr.contains (str "***") segment = false) segments)
  /\ ((2 <= length segments)%nat ->
      Forall (fun segment => blank segment = true -> segment = []) segments)
  /\ ParagraphChecker.check_following value num_paragraphs
     = Return (PyBool (if existsb blank (interior segments) then false
                       else bool_decide
                              (Z.of_nat (length (discard_ends segments)) = num_paragraphs)))
  /\ (discard_ends (Re.split Re.divider (str "A***B***C")) = [str "A"; str "B"; str "C"]
      /\ ParagraphChecker.check_following (str "A***B***C") 3 = Return (PyBool true))
  /\ (discard_ends (Re.split Re.divider (str "***A***")) = [str "A"]
      /\ ParagraphChecker.check_following (str "***A***") 1 = Return (PyBool true)).
Proof.
  intros segments. split; [apply split_divider_spec|].
  split; [apply split_divider_blank_nil|]. split; [|repeat split].
  unfold ParagraphChecker.check_following. fold segments.
  rewrite count_paragraphs_spec by apply split_from_not_nil.
  destruct (existsb blank (interior segments)); [reflexivity|].
  do 2 f_equal. apply eq_true_iff_eq. rewrite bool_decide_eq_true. apply Z.eqb_eq.
Qed.

(** ** [startend:end_checker] *)

(** C7, as the code has it.  The response is trimmed, loses every double
    quote at its two ends, and is put in lower case; the phrase is trimmed and
    put in lower case, and keeps its quotes.  The check holds exactly when the
    response so normalized ends with the phrase so normalized. *)
Theorem end_checker_verdict (value end_phrase : pystr) :
  let response := PyStr.lower (PyStr.strip_chars [DQUOTE] (PyStr.strip value)) in
  let phrase := PyStr.lower (PyStr.strip end_phrase) in
  exists verdict : bool,
    EndChecker.check_following value end_phrase = Return (PyBool verdict)
    /\ (verdict = true <-> exists front, response = front ++ phrase).
Proof.
  intros response phrase. exists (PyStr.endswith response phrase). split.
  - unfold EndChecker.check_following. fold response.
    rewrite strip_idemp. reflexivity.
  - apply endswith_spec.
Qed.

(** C7, as the specification states it, fails: a phrase given in quotes is
    looked for with its quotes, and a response in two layers of quotes loses
    both. *)
Lemma end_checker_keeps_quotes_of_phrase :
  (end_checker_as_specified (str "bye") ([DQUOTE] ++ str "bye" ++ [DQUOTE]) = true
   /\ EndChecker.check_following (str "bye") ([DQUOTE] ++ str "bye" ++ [DQUOTE])
      = Return (PyBool false))
  /\ (end_checker_as_specified
        ([DQUOTE; DQUOTE] ++ str "bye" ++ [DQUOTE; DQUOTE]) (str "bye") = false
      /\ EndChecker.check_following
           ([DQUOTE; DQUOTE] ++ str "bye" ++ [DQUOTE; DQUOTE]) (str "bye")
         = Return (PyBool true)).
Proof. repeat split. Qed.

(** ** [length_constraints:nth_paragraph_first_word] *)

Section nth_paragraph_first_word.
Import ParagraphFirstWordCheck.

Lemma filter_blank_length (paragraphs : list pystr) :
  (length (List.filter blank paragraphs)
   + length (List.filter (fun p => negb (blank p)) paragraphs)
   = length paragraphs)%nat.
Proof.
  induction paragraphs as [|p ps IH]; [reflexivity|].
  simpl. destruct (blank p); simpl; lia.
Qed.

(** The loop that takes the empty paragraphs off the count. *)
Lemma count_not_blank (paragraphs : list pystr) (n : Z) :
  fold_left (fun n paragraph =>
               if negb (PyStr.truthy (PyStr.strip paragraph)) then n - 1 else n)
    paragraphs n
  = n - Z.of_nat (length (List.filter blank paragraphs)).
Proof.
  revert n. induction paragraphs as [|p ps IH]; intros n; simpl; [lia|].
  rewrite IH. fold (blank p). destruct (blank p); simpl; lia.
Qed.


Lemma first_word_of_spec (word : pystr) :
  first_word_of word = PyStr.lower (before_punctuation word).
Proof.
  induction word as [|c word IH]; [reflexivity|].
  cbn [first_word_of before_punctuation].
  destruct (PyStr.char_in punctuation c); [reflexivity|].
  cbn [PyStr.lower map]. by rewrite IH.
Qed.


End nth_paragraph_first_word.



(** ** Language detection that fails *)

(** C4, as the code has it.  On a response whose language cannot be detected,
    [language:response_language] gives false; the two case checkers ask for
    the language only when the response is in the case they want, and give
    true then; on any other response they give false without asking. *)
Theorem detection_failure_outcomes `{Libraries} (value language : pystr) :
  langdetect_detect value = None ->
  ResponseLanguageChecker.check_following value language = Return (PyBool false)
  /\ CapitalLettersEnglishChecker.check_following value
     = Return (PyBool (PyStr.isupper value))
  /\ LowercaseLettersEnglishChecker.check_following value
     = Return (PyBool (PyStr.islower value)).
Proof.
  intros Hfail.
  unfold ResponseLanguageChecker.check_following, ResponseLanguageChecker.detection,
    CapitalLettersEnglishChecker.check_following, CapitalLettersEnglishChecker.detection,
    LowercaseLettersEnglishChecker.check_following,
    LowercaseLettersEnglishChecker.detection.
  rewrite Hfail. repeat split.
  - by destruct (PyStr.isupper value).
  - by destruct (PyStr.islower value).
Qed.

Lemma detection_failure_outcomes_witness :
  @langdetect_detect sample_libraries (str "ME@X.ORG") = None
  /\ @ResponseLanguageChecker.check_following sample_libraries (str "ME@X.ORG") (str "en")
     = Return (PyBool false)
  /\ @CapitalLettersEnglishChecker.check_following sample_libraries (str "ME@X.ORG")
     = Return (PyBool true)
  /\ @LowercaseLettersEnglishChecker.check_following sample_libraries (str "ME@X.ORG")
     = Return (PyBool false).
Proof.
  split; [reflexivity|].
  exact (@detection_failure_outcomes sample_libraries (str "ME@X.ORG") (str "en") eq_refl).
Defined.

(** C4, as the specification states it, fails: the language of a response
    without letters cannot be detected, and both case checkers give false on
    it. *)
Lemma detection_failure_closed_without_case :
  @langdetect_detect sample_libraries (str "12") = None
  /\ @CapitalLettersEnglishChecker.check_following sample_libraries (str "12")
     = Return (PyBool false)
  /\ @LowercaseLettersEnglishChecker.check_following sample_libraries (str "12")
     = Return (PyBool false).
Proof. repeat split. Qed.

(** No response is in capital letters and in lower case at once, so no
    response has true from both case checkers, whatever the detection
    gives. *)
Lemma isupper_not_islower (s : pystr) : PyStr.isupper s = true -> PyStr.islower s = false.
Proof.
  unfold PyStr.isupper, PyStr.islower. intros [_ Hupper]%andb_true_iff.
  apply andb_false_iff. left. apply not_true_is_false. intros Hnone.
  apply existsb_exists in Hupper as (c & Hc & Hcu).
  rewrite forallb_forall in Hnone. specialize (Hnone c Hc). by rewrite Hcu in Hnone.
Qed.

Lemma case_checkers_never_both_true `{Libraries} (value : pystr) :
  CapitalLettersEnglishChecker.check_following value = Return (PyBool true) ->
  LowercaseLettersEnglishChecker.check_following value = Return (PyBool true) ->
  False.
Proof.
  unfold CapitalLettersEnglishChecker.check_following,
    CapitalLettersEnglishChecker.detection,
    LowercaseLettersEnglishChecker.check_following,
    LowercaseLettersEnglishChecker.detection.
  destruct (PyStr.isupper value) eqn:Hupper; [|done].
  by rewrite (isupper_not_islower _ Hupper).
Qed.

(** ** Every registered checker returns a verdict *)

Section totality.
Context `{Libraries}.
Import instructions_registry.











(** The parser decides: its [ValueError] gives false, and any other
    exception that it raises leaves the call. *)
Lemma JsonFormat_result (value : pystr) :
  JsonFormat.check_following value
  = match json_loads (unfenced value) with
    | Return _ => Return (PyBool true)
    | Raise ValueError => Return (PyBool false)
    | Raise e => Raise e
    end.
Proof.
  unfold JsonFormat.check_following, JsonFormat.parse. fold (unfenced value).
  destruct (json_loads (unfenced value)) as [document|e]; [reflexivity|].
  by destruct e.
Qed.








End totality.





(** ** [conflict_make] *)

Section conflict_make.
Import instructions_registry.
Import owned.
Context `{Order}.

Lemma elem_of_set_elements (key x : string) (s : gset string) :
  x ∈ set_elements key s <-> x ∈ s.
Proof. by rewrite set_elements_perm, elem_of_elements. Qed.

Lemma elem_of_dict_keys (x : string) (d : table) :
  x ∈ dict_keys d <-> x ∈ dom d.
Proof. by rewrite dict_keys_perm, elem_of_elements. Qed.

Lemma union_singleton_twice (s : gset string) (key : string) :
  s ∪ {[key]} ∪ {[key]} = s ∪ {[key]}.
Proof. apply set_eq. intros x. rewrite !elem_of_union. tauto. Qed.

Lemma for_each_cons {S A} (x : A) (l : list A) (body : A -> M S unit) (st : S) :
  for_each (x :: l) body st
  = match body x st with
    | (Return _, st') => for_each l body st'
    | (Raise e, st') => (Raise e, st')
    end.
Proof. reflexivity. Qed.

(** The inner loop, when it ends: every element is a key, and [key] has
    joined the set of each of them. *)
Lemma inner_loop_inv (ks : list string) (key : string) (st st' : table) :
  for_each ks (fun k => add k key) st = (Return (), st') ->
  (forall k, k ∈ ks -> k ∈ dom st)
  /\ forall x, st' !! x
       = (fun s => if decide (x ∈ ks) then s ∪ {[key]} else s) <$> st !! x.
Proof.
  revert st. induction ks as [|k ks IH]; intros st Hrun.
  - injection Hrun as <-. split; [by intros k ?%elem_of_nil|].
    intros x. by destruct (st !! x).
  - rewrite for_each_cons in Hrun. unfold add at 1 in Hrun.
    destruct (st !! k) as [s|] eqn:Hk; [|discriminate].
    apply IH in Hrun as [Hdom Hlook]. split.
    + intros k' [->|Hin]%elem_of_cons; [by apply elem_of_dom|].
      specialize (Hdom k' Hin). rewrite dom_insert_L in Hdom.
      apply elem_of_union in Hdom as [->%elem_of_singleton|]; [by apply elem_of_dom|done].
    + intros x. rewrite Hlook. destruct (decide (k = x)) as [->|Hne].
      * rewrite lookup_insert_eq, Hk. simpl. f_equal.
        rewrite (decide_True (P := x ∈ x :: ks)) by by left.
        case_decide; [apply union_singleton_twice|done].
      * rewrite lookup_insert_ne by done. destruct (st !! x); [|done]. simpl. f_equal.
        assert (x ∈ k :: ks <-> x ∈ ks)
          by (rewrite elem_of_cons; split; [intros [Heq|?]; [by subst|done]|by right]).
        repeat case_decide; tauto.
Qed.

(** The inner loop leaves the set it iterates over as it is, at every step:
    the iteration never meets a set that has changed. *)
Lemma inner_loop_keeps_own_set (ks : list string) (key : string) (s : gset string)
  (st st' : table) :
  st !! key = Some s -> (forall k, k ∈ ks -> k ∈ s) ->
  for_each ks (fun k => add k key) st = (Return (), st') ->
  st' !! key = Some s.
Proof.
  intros Hkey Hks [_ Hlook]%inner_loop_inv. rewrite Hlook, Hkey. simpl. f_equal.
  case_decide as Hin; [|done]. apply set_eq. intros x.
  rewrite elem_of_union, elem_of_singleton.
  split; [intros [? | ->]; [done|by apply Hks]|by left].
Qed.

(** The inner loop ends when every element is a key. *)
Lemma inner_loop_ok (ks : list string) (key : string) (st : table) :
  (forall k, k ∈ ks -> k ∈ dom st) ->
  exists st', for_each ks (fun k => add k key) st = (Return (), st').
Proof.
  revert st. induction ks as [|k ks IH]; intros st Hdom; [by eexists|].
  rewrite for_each_cons. unfold add at 1.
  assert (k ∈ dom st) as [s Hk]%elem_of_dom by (apply Hdom; by left). rewrite Hk.
  apply IH. intros k' Hin. rewrite dom_insert_L. apply elem_of_union. right.
  apply Hdom. by right.
Qed.

(** One round of the outer loop, when it ends. *)
Lemma visit_inv (key : string) (st st' : table) :
  visit key st = (Return (), st') ->
  exists s, st !! key = Some s
    /\ (forall k, k ∈ s -> k ∈ dom st)
    /\ forall x, st' !! x
         = (fun sx => if decide (x = key \/ x ∈ s) then sx ∪ {[key]} else sx) <$> st !! x.
Proof.
  unfold visit, mbind, M_bind, getitem. intros Hrun.
  destruct (st !! key) as [s|] eqn:Hkey; [|discriminate].
  exists s. split; [done|].
  destruct (for_each (set_elements key s) _ st) as [[[]|e] st1] eqn:Hinner; [|discriminate].
  apply inner_loop_inv in Hinner as [Hdom Hlook].
  split; [by intros k ?%(elem_of_set_elements key)%Hdom|].
  unfold add in Hrun. rewrite Hlook, Hkey in Hrun. simpl in Hrun.
  injection Hrun as <-. intros x. destruct (decide (key = x)) as [->|Hne].
  - rewrite lookup_insert_eq, Hkey. simpl. f_equal.
    rewrite (decide_True (P := x = x \/ x ∈ s)) by by left.
    case_decide; [apply union_singleton_twice|done].
  - rewrite lookup_insert_ne, Hlook by done. destruct (st !! x); [|done]. simpl. f_equal.
    assert (x ∈ set_elements key s <-> x = key \/ x ∈ s)
      by (rewrite elem_of_set_elements; split; [by right|intros [Heq|?]; [by subst|done]]).
    repeat case_decide; tauto.
Qed.

Lemma visit_ok (key : string) (s : gset string) (st : table) :
  st !! key = Some s -> (forall k, k ∈ s -> k ∈ dom st) ->
  exists st', visit key st = (Return (), st').
Proof.
  intros Hkey Hdom. unfold visit, mbind, M_bind, getitem. rewrite Hkey.
  destruct (inner_loop_ok (set_elements key s) key st) as [st1 Hinner];
    [by intros k ?%(elem_of_set_elements key)%Hdom|].
  rewrite Hinner. apply inner_loop_inv in Hinner as [_ Hlook].
  unfold add. rewrite Hlook, Hkey. simpl. by eexists.
Qed.

Lemma visit_dom (key : string) (st st' : table) :
  visit key st = (Return (), st') -> dom st' = dom st.
Proof.
  intros (s & _ & _ & Hlook)%visit_inv. apply set_eq. intros x.
  rewrite !elem_of_dom, Hlook. apply fmap_is_Some.
Qed.

(** One round of the outer loop keeps what the rounds before have settled,
    and settles its key. *)
Lemma visit_step (T : table) (done : list string) (key : string) (st st' : table) :
  visit key st = (Return (), st') ->
  settled done st -> stems_from T st -> extends T st ->
  settled (key :: done) st' /\ stems_from T st' /\ extends T st'.
Proof.
  intros Hrun Hsettled Hstems [Hdom Hkeeps].
  pose proof (visit_dom _ _ _ Hrun) as Hdom'.
  apply visit_inv in Hrun as (s & Hkey & Hclosed & Hlook).
  assert (Hgrow : forall x sx, st !! x = Some sx ->
                    exists sx', st' !! x = Some sx' /\ sx ⊆ sx'
                      /\ (x = key \/ x ∈ s -> key ∈ sx')
                      /\ forall y, y ∈ sx' -> y ∈ sx \/ (y = key /\ (x = key \/ x ∈ s))).
  { intros x sx Hx. rewrite Hlook, Hx. simpl. eexists. split; [reflexivity|].
    case_decide as Hcase.
    - split; [apply union_subseteq_l|].
      split; [intros _; apply elem_of_union_r; by apply elem_of_singleton|].
      intros y [Hy|Hy%elem_of_singleton]%elem_of_union; [by left|by right].
    - split; [done|]. split; [done|]. intros y Hy. by left. }
  split; [|split; [|split]].
  - intros y [->|Hy]%elem_of_cons.
    + destruct (Hgrow key s Hkey) as (s' & Hs' & Hsub & Hself & Hnew).
      exists s'. split; [done|]. split; [apply Hself; by left|].
      intros x Hx. destruct (Hnew x Hx) as [Hold|[-> _]].
      * assert (x ∈ dom st) as [sx Hsx]%elem_of_dom by by apply Hclosed.
        destruct (Hgrow x sx Hsx) as (sx' & Hsx' & _ & Hadd & _).
        exists sx'. split; [done|]. apply Hadd. by right.
      * exists s'. split; [done|]. apply Hself. by left.
    + destruct (Hsettled y Hy) as (sy & Hsy & Hrefl & Hsym).
      destruct (Hgrow y sy Hsy) as (sy' & Hsy' & Hsub & _ & Hnew).
      exists sy'. split; [done|]. split; [by apply Hsub|].
      intros x Hx. destruct (Hnew x Hx) as [Hold|[-> Hwhy]].
      * destruct (Hsym x Hold) as (sx & Hsx & Hyx).
        destruct (Hgrow x sx Hsx) as (sx' & Hsx' & Hsubx & _).
        exists sx'. split; [done|]. by apply Hsubx.
      * destruct (Hgrow key s Hkey) as (s' & Hs' & Hsubk & Hself & _).
        exists s'. split; [done|]. destruct Hwhy as [->|Hys]; [apply Hself; by left|].
        by apply Hsubk.
  - intros x sx' y Hx Hy.
    assert (x ∈ dom st) as [sx Hsx]%elem_of_dom
      by (rewrite <- Hdom'; by apply elem_of_dom).
    destruct (Hgrow x sx Hsx) as (sx'' & Hsx'' & _ & _ & Hnew).
    rewrite Hx in Hsx''. injection Hsx'' as <-.
    destruct (Hnew y Hy) as [Hold|[-> [->|Hxs]]].
    + by eapply Hstems.
    + by left.
    + destruct (Hstems key s x Hkey Hxs) as [->|[Hone|Hother]];
        [by left|right; by right|right; by left].
  - by rewrite Hdom'.
  - intros x sT HT. destruct (Hkeeps x sT HT) as (sx & Hsx & Hsub).
    destruct (Hgrow x sx Hsx) as (sx' & Hsx' & Hsub' & _).
    exists sx'. split; [done|]. by etrans.
Qed.

(** The outer loop, when it ends. *)
Lemma outer_loop_inv (T : table) (keys done : list string) (st st' : table) :
  for_each keys visit st = (Return (), st') ->
  settled done st -> stems_from T st -> extends T st ->
  settled (rev keys ++ done) st' /\ stems_from T st' /\ extends T st'.
Proof.
  revert done st. induction keys as [|key keys IH]; intros done st Hrun Hs Hf He.
  - by injection Hrun as <-.
  - rewrite for_each_cons in Hrun.
    destruct (visit key st) as [[[]|e] st1] eqn:Hvisit; [|discriminate].
    destruct (visit_step T done key st st1 Hvisit Hs Hf He) as (Hs1 & Hf1 & He1).
    destruct (IH _ _ Hrun Hs1 Hf1 He1) as (Hs' & Hf' & He').
    split; [|done]. simpl. by rewrite <- app_assoc.
Qed.

Lemma stems_from_refl (T : table) : stems_from T T.
Proof. intros x sx y Hx Hy. right. left. by exists sx. Qed.

Lemma extends_refl (T : table) : extends T T.
Proof. split; [done|]. intros x s Hx. by exists s. Qed.

(** What a call that ends leaves in the table. *)
Lemma conflict_make_inv (T T' : table) :
  conflict_make T = (Return (), T') ->
  settled (elements (dom T')) T' /\ stems_from T T' /\ extends T T'.
Proof.
  intros Hrun. unfold conflict_make in Hrun.
  destruct (outer_loop_inv T (dict_keys T) [] T T' Hrun) as (Hs & Hf & [Hdom He]);
    [by intros y ?%elem_of_nil|apply stems_from_refl|apply extends_refl|].
  split; [|by repeat split].
  intros y Hy. apply Hs.
  rewrite app_nil_r, list_elem_of_In, <- in_rev, <- list_elem_of_In, elem_of_dict_keys.
  rewrite <- Hdom. by apply elem_of_elements.
Qed.

Lemma settled_symmetric (T : table) : settled (elements (dom T)) T -> symmetric T.
Proof.
  intros Hs a b sa Ha Hb.
  destruct (Hs a) as (sa' & Ha' & _ & Hsym);
    [by apply elem_of_elements, elem_of_dom|].
  rewrite Ha in Ha'. injection Ha' as <-. by apply Hsym.
Qed.

Lemma settled_reflexive (T : table) : settled (elements (dom T)) T -> reflexive T.
Proof.
  intros Hs a sa Ha.
  destruct (Hs a) as (sa' & Ha' & Hrefl & _);
    [by apply elem_of_elements, elem_of_dom|].
  rewrite Ha in Ha'. by injection Ha' as <-.
Qed.

Lemma settled_closed (T : table) : settled (elements (dom T)) T -> closed T.
Proof.
  intros Hs a sa Ha b Hb.
  destruct (settled_symmetric T Hs a b sa Ha Hb) as (sb & Hsb & _).
  by apply elem_of_dom.
Qed.

Lemma visit_closed (key : string) (st st' : table) :
  closed st -> visit key st = (Return (), st') -> closed st'.
Proof.
  intros Hclosed Hrun. pose proof (visit_dom _ _ _ Hrun) as Hdom.
  apply visit_inv in Hrun as (s & Hkey & _ & Hlook).
  intros x sx' Hx'. rewrite Hlook in Hx'. rewrite Hdom.
  destruct (st !! x) as [sx|] eqn:Hx; [|done]. injection Hx' as <-.
  pose proof (Hclosed x sx Hx) as Hsub. simpl in Hsub.
  assert (key ∈ dom st) by by apply elem_of_dom.
  case_decide; [|done]. apply union_subseteq. split; [done|].
  by apply singleton_subseteq_l.
Qed.

(** On a closed table the outer loop ends. *)
Lemma outer_loop_ok (keys : list string) (st : table) :
  closed st -> (forall key, key ∈ keys -> key ∈ dom st) ->
  exists st', for_each keys visit st = (Return (), st').
Proof.
  revert st. induction keys as [|key keys IH]; intros st Hclosed Hkeys; [by eexists|].
  rewrite for_each_cons.
  assert (key ∈ dom st) as [s Hkey]%elem_of_dom by (apply Hkeys; by left).
  destruct (visit_ok key s st Hkey) as [st1 Hvisit].
  { intros k Hk. by apply (Hclosed key s Hkey). }
  rewrite Hvisit. apply IH; [by eapply visit_closed|].
  intros k Hk. rewrite (visit_dom _ _ _ Hvisit). apply Hkeys. by right.
Qed.

Lemma conflict_make_ok (T : table) :
  closed T -> exists T', conflict_make T = (Return (), T').
Proof.
  intros Hclosed. apply outer_loop_ok; [done|].
  by intros key ?%elem_of_dict_keys.
Qed.

(** A table that is settled is left as it is. *)
Lemma add_fixed (k key : string) (sk : gset string) (st : table) :
  st !! k = Some sk -> key ∈ sk -> add k key st = (Return (), st).
Proof.
  intros Hk Hkey. unfold add. rewrite Hk. f_equal. apply insert_id.
  rewrite Hk. f_equal. apply set_eq. intros x.
  rewrite elem_of_union, elem_of_singleton. split; [by left|intros [? | ->]; done].
Qed.

Lemma inner_loop_fixed (ks : list string) (key : string) (st : table) :
  (forall k, k ∈ ks -> exists sk, st !! k = Some sk /\ key ∈ sk) ->
  for_each ks (fun k => add k key) st = (Return (), st).
Proof.
  induction ks as [|k ks IH]; intros Hks; [reflexivity|].
  rewrite for_each_cons. destruct (Hks k) as (sk & Hk & Hkey); [by left|].
  rewrite (add_fixed k key sk st Hk Hkey). apply IH. intros k' Hk'. apply Hks. by right.
Qed.

Lemma visit_fixed (key : string) (st : table) :
  settled [key] st -> visit key st = (Return (), st).
Proof.
  intros Hs. destruct (Hs key) as (s & Hkey & Hrefl & Hsym); [by left|].
  unfold visit, mbind, M_bind, getitem. rewrite Hkey.
  rewrite inner_loop_fixed by by intros k ?%(elem_of_set_elements key)%Hsym.
  by apply add_fixed with s.
Qed.

Lemma outer_loop_fixed (keys : list string) (st : table) :
  settled keys st -> for_each keys visit st = (Return (), st).
Proof.
  induction keys as [|key keys IH]; intros Hs; [reflexivity|].
  rewrite for_each_cons, visit_fixed.
  - apply IH. intros y Hy. apply Hs. by right.
  - intros y ->%list_elem_of_singleton. apply Hs. by left.
Qed.

Lemma conflict_make_fixed (T : table) :
  settled (elements (dom T)) T -> conflict_make T = (Return (), T).
Proof.
  intros Hs. apply outer_loop_fixed. intros y Hy%elem_of_dict_keys.
  by apply Hs, elem_of_elements.
Qed.

End conflict_make.

(** ** [conflict_make] on the set objects *)

Section shared_sets.
Import instructions_registry.
Context `{IterationOrder}.
Variable conflicts : gmap string loc.

Lemma contents_lookup (h : heap) (key : string) :
  contents conflicts h !! key = (fun l => h !!! l) <$> conflicts !! key.
Proof. apply lookup_fmap. Qed.

Lemma contents_dom (h : heap) : dom (contents conflicts h) = dom conflicts.
Proof. apply dom_fmap_L. Qed.

(** [conflicts[k].add(key)], on the set objects and on the table of a
    dictionary without shared sets. *)
Lemma add_on_heap (k key : string) (h : heap) :
  (sk ← getitem conflicts k; set_add sk key) h
  = match conflicts !! k with
    | Some l => (Return (), <[l := h !!! l ∪ {[key]}]> h)
    | None => (Raise (KeyError k), h)
    end.
Proof. unfold mbind, M_bind, getitem. by destruct (conflicts !! k). Qed.

Lemma add_on_contents (k key : string) (h : heap) :
  owned.add k key (contents conflicts h)
  = match conflicts !! k with
    | Some l => (Return (), <[k := h !!! l ∪ {[key]}]> (contents conflicts h))
    | None => (Raise (KeyError k), contents conflicts h)
    end.
Proof. unfold owned.add. rewrite contents_lookup. by destruct (conflicts !! k). Qed.

(** Without shared sets, adding to the set object of a key changes the
    entry of that key only. *)
Lemma contents_insert (h : heap) (k : string) (l : loc) (s : gset string) :
  unshared conflicts -> conflicts !! k = Some l ->
  contents conflicts (<[l := s]> h) = <[k := s]> (contents conflicts h).
Proof.
  intros Hunshared Hk. apply map_eq. intros y. rewrite contents_lookup.
  destruct (decide (k = y)) as [<-|Hne].
  - rewrite lookup_insert_eq, Hk. simpl. by rewrite lookup_total_insert_eq.
  - rewrite lookup_insert_ne, contents_lookup by done.
    destruct (conflicts !! y) as [ly|] eqn:Hy; [|done]. simpl. f_equal.
    rewrite lookup_total_insert_ne; [done|].
    intros ->. apply Hne. by apply (Hunshared k y ly).
Qed.

(** The inner loop.  Without shared sets the set object that the loop
    iterates over keeps its elements: the iterator never finds another
    size, and the loop does what it does on the table. *)
Lemma inner_loop_follows (key : string) (l : loc) (s : gset string) :
  unshared conflicts -> conflicts !! key = Some l ->
  forall (ks : list string) (h : heap),
    h !!! l = s -> (forall k, k ∈ ks -> k ∈ s) ->
    exists h',
      iterate l (size s) ks (fun k => sk ← getitem conflicts k; set_add sk key) h
      = ((for_each ks (fun k => owned.add k key) (contents conflicts h)).1, h')
      /\ contents conflicts h'
         = (for_each ks (fun k => owned.add k key) (contents conflicts h)).2.
Proof.
  intros Hunshared Hkey. induction ks as [|k ks IH]; intros h Hs Hks.
  - exists h. cbn [iterate]. by rewrite decide_True by by rewrite Hs.
  - cbn [iterate]. rewrite decide_True by by rewrite Hs.
    rewrite for_each_cons, add_on_heap, add_on_contents.
    destruct (conflicts !! k) as [lk|] eqn:Hk; [|by exists h].
    rewrite <- (contents_insert h k lk) by done.
    apply IH; [|intros k' Hk'; apply Hks; by right].
    destruct (decide (lk = l)) as [->|Hne].
    + rewrite lookup_total_insert_eq, Hs.
      assert (k = key) as -> by by apply (Hunshared k key l).
      assert (key ∈ s) by (apply Hks; by left).
      apply set_eq. intros x. rewrite elem_of_union, elem_of_singleton.
      split; [intros [? | ->]; done|by left].
    + by rewrite lookup_total_insert_ne.
Qed.

(** One round of the outer loop, step by step. *)
Lemma visit_on_heap (key : string) (h : heap) :
  visit conflicts key h
  = match conflicts !! key with
    | Some l =>
        match iterate l (size (h !!! l)) (set_elements l (h !!! l))
                (fun k => sk ← getitem conflicts k; set_add sk key) h with
        | (Return _, h1) => (sk ← getitem conflicts key; set_add sk key) h1
        | (Raise e, h1) => (Raise e, h1)
        end
    | None => (Raise (KeyError key), h)
    end.
Proof. unfold visit, mbind, M_bind, getitem, for_in_set. by destruct (conflicts !! key). Qed.

Lemma visit_on_contents `{owned.Order} (key : string) (T : owned.table) :
  owned.visit key T
  = match T !! key with
    | Some s =>
        match for_each (owned.set_elements key s) (fun k => owned.add k key) T with
        | (Return _, T1) => owned.add key key T1
        | (Raise e, T1) => (Raise e, T1)
        end
    | None => (Raise (KeyError key), T)
    end.
Proof. unfold owned.visit, mbind, M_bind, owned.getitem. by destruct (T !! key). Qed.

Lemma visit_follows (key : string) (h : heap) :
  unshared conflicts ->
  exists h',
    visit conflicts key h
    = ((@owned.visit (owned_order conflicts) key (contents conflicts h)).1, h')
    /\ contents conflicts h'
       = (@owned.visit (owned_order conflicts) key (contents conflicts h)).2.
Proof.
  intros Hunshared. rewrite visit_on_heap, visit_on_contents, contents_lookup.
  destruct (conflicts !! key) as [l|] eqn:Hkey; [|by exists h].
  cbn [fmap option_fmap option_map owned.set_elements owned_order]. rewrite Hkey.
  destruct (inner_loop_follows key l (h !!! l) Hunshared Hkey
              (set_elements l (h !!! l)) h) as (h1 & Hrun & Hcontents); [done| |].
  { intros k Hk. by rewrite set_elements_perm, elem_of_elements in Hk. }
  rewrite Hrun.
  destruct (for_each _ _ (contents conflicts h)) as [[[]|e] T1]; simpl in *;
    [|by exists h1].
  rewrite add_on_heap, <- Hcontents, add_on_contents, Hkey.
  eexists. split; [reflexivity|]. by apply contents_insert.
Qed.

(** The outer loop. *)
Lemma outer_loop_follows (keys : list string) (h : heap) :
  unshared conflicts ->
  exists h',
    for_each keys (visit conflicts) h
    = ((for_each keys (@owned.visit (owned_order conflicts)) (contents conflicts h)).1, h')
    /\ contents conflicts h'
       = (for_each keys (@owned.visit (owned_order conflicts)) (contents conflicts h)).2.
Proof.
  intros Hunshared. revert h. induction keys as [|key keys IH]; intros h; [by exists h|].
  rewrite !for_each_cons.
  destruct (visit_follows key h Hunshared) as (h1 & -> & Hcontents).
  destruct (owned.visit key (contents conflicts h)) as [[[]|e] T1]; simpl in *;
    [|by exists h1].
  rewrite <- Hcontents. apply IH.
Qed.

(** The call: it returns the dictionary when the table ends, and raises what
    the table raises. *)
Lemma conflict_make_follows (h : heap) :
  unshared conflicts ->
  exists h',
    conflict_make conflicts h
    = (match (@owned.conflict_make (owned_order conflicts) (contents conflicts h)).1 with
       | Return _ => Return conflicts
       | Raise e => Raise e
       end,
       h')
    /\ contents conflicts h'
       = (@owned.conflict_make (owned_order conflicts) (contents conflicts h)).2.
Proof.
  intros Hunshared. unfold conflict_make, owned.conflict_make.
  cbn [owned.dict_keys owned_order]. rewrite decide_True by apply contents_dom.
  destruct (outer_loop_follows (dict_keys conflicts) h Hunshared)
    as (h' & Hrun & Hcontents).
  exists h'. split; [|done]. unfold mbind, M_bind. rewrite Hrun.
  by destruct (for_each _ _ (contents conflicts h)) as [[[]|e] T1].
Qed.

(** A table that is settled is left as it is, shared sets or not: every
    element that a round adds is in its set already. *)
Lemma set_add_settled (l : loc) (x : string) (h : heap) :
  x ∈ h !!! l -> set_add l x h = (Return (), h).
Proof.
  intros Hx. unfold set_add. f_equal. apply insert_id.
  rewrite lookup_total_alt in Hx |- *. destruct (h !! l) as [s|]; simpl in *.
  - f_equal. apply set_eq. intros y. rewrite elem_of_union, elem_of_singleton.
    split; [by left|intros [? | ->]; done].
  - by apply elem_of_empty in Hx.
Qed.

Lemma iterate_settled (l : loc) (ks : list string) (body : string -> M heap unit)
  (h : heap) :
  (forall k, k ∈ ks -> body k h = (Return (), h)) ->
  iterate l (size (h !!! l)) ks body h = (Return (), h).
Proof.
  induction ks as [|k ks IH]; intros Hbody; cbn [iterate]; rewrite decide_True by done;
    [done|].
  rewrite (Hbody k) by by left. apply IH. intros k' Hk'. apply Hbody. by right.
Qed.

Lemma visit_settled (key : string) (h : heap) :
  settled [key] (contents conflicts h) -> visit conflicts key h = (Return (), h).
Proof.
  intros Hs. destruct (Hs key) as (s & Hkey & Hrefl & Hsym); [by left|].
  rewrite contents_lookup in Hkey.
  destruct (conflicts !! key) as [l|] eqn:Hl; [|done]. injection Hkey as <-.
  rewrite visit_on_heap, Hl, iterate_settled.
  - rewrite add_on_heap, Hl. by apply set_add_settled.
  - intros k Hk. rewrite set_elements_perm, elem_of_elements in Hk.
    destruct (Hsym k Hk) as (sk & Hsk & Hin). rewrite contents_lookup in Hsk.
    rewrite add_on_heap.
    destruct (conflicts !! k) as [lk|]; [|done]. injection Hsk as <-.
    by apply set_add_settled.
Qed.

Lemma outer_loop_settled (keys : list string) (h : heap) :
  settled keys (contents conflicts h) ->
  for_each keys (visit conflicts) h = (Return (), h).
Proof.
  induction keys as [|key keys IH]; intros Hs; [reflexivity|].
  rewrite for_each_cons, visit_settled.
  - apply IH. intros y Hy. apply Hs. by right.
  - intros y ->%list_elem_of_singleton. apply Hs. by left.
Qed.

Lemma conflict_make_settled (h : heap) :
  settled (elements (dom (contents conflicts h))) (contents conflicts h) ->
  conflict_make conflicts h = (Return conflicts, h).
Proof.
  intros Hs. unfold conflict_make, mbind, M_bind. rewrite outer_loop_settled; [done|].
  intros y Hy. apply Hs. rewrite contents_dom.
  by rewrite dict_keys_perm in Hy.
Qed.

(** On a dictionary without shared sets that names only its keys, the call
    returns, and the table that it leaves is settled. *)
Lemma conflict_make_returns (h : heap) :
  unshared conflicts -> closed (contents conflicts h) ->
  exists h',
    conflict_make conflicts h = (Return conflicts, h')
    /\ @owned.conflict_make (owned_order conflicts) (contents conflicts h)
       = (Return (), contents conflicts h').
Proof.
  intros Hunshared Hclosed.
  destruct (@conflict_make_ok (owned_order conflicts) _ Hclosed) as [T' Hrun].
  destruct (conflict_make_follows h Hunshared) as (h' & Hnew & Hcontents).
  rewrite Hrun in Hnew, Hcontents. simpl in Hnew, Hcontents.
  exists h'. split; [done|]. by rewrite Hcontents.
Qed.

End shared_sets.

Lemma one_way_unshared : unshared one_way.
Proof.
  intros k1 k2 l H1 H2. unfold one_way in H1, H2.
  rewrite !lookup_insert_Some, lookup_empty in H1, H2.
  destruct H1 as [[<- <-]|[_ [[<- <-]|[_ ?]]]]; [| |done];
    destruct H2 as [[<- ?]|[_ [[<- ?]|[_ ?]]]]; done.
Qed.

Lemma one_way_closed : closed (contents one_way one_way_sets).
Proof. apply (bool_decide_unpack _). by vm_compute. Qed.

(** C3, as the code has it.  On a dictionary in which no two keys share a
    set object and every identifier of a set is a key, the call ends; it
    returns the dictionary it is given, having added to its sets, and the
    table is then symmetric and reflexive, has the same keys, and holds the
    conflicts of the argument, their converses and the conflict of each key
    with itself, and no other. *)
Theorem conflict_make_symmetrizes `{instructions_registry.IterationOrder}
  (conflicts : gmap string instructions_registry.loc) (h : instructions_registry.heap) :
  unshared conflicts -> closed (contents conflicts h) ->
  exists h',
    instructions_registry.conflict_make conflicts h = (Return conflicts, h')
    /\ symmetric (contents conflicts h') /\ reflexive (contents conflicts h')
    /\ dom (contents conflicts h') = dom (contents conflicts h)
    /\ forall a b s', contents conflicts h' !! a = Some s' ->
         (b ∈ s' <->
          b = a \/ (exists s, contents conflicts h !! a = Some s /\ b ∈ s)
          \/ (exists s, contents conflicts h !! b = Some s /\ a ∈ s)).
Proof.
  intros Hunshared Hclosed.
  destruct (conflict_make_returns conflicts h Hunshared Hclosed) as (h' & Hrun & Htable).
  exists h'. split; [done|].
  apply conflict_make_inv in Htable as (Hs & Hf & [Hdom He]).
  pose proof (settled_symmetric _ Hs) as Hsym.
  pose proof (settled_reflexive _ Hs) as Hrefl.
  split; [exact Hsym|]. split; [exact Hrefl|]. split; [exact Hdom|].
  intros a b s' Hlook. split.
  - by apply Hf.
  - intros [->|[(s & Ha & Hb)|(s & Hb & Ha)]].
    + by apply (Hrefl a).
    + destruct (He a s Ha) as (s'' & Ha' & Hsub).
      rewrite Hlook in Ha'. injection Ha' as <-. by apply Hsub.
    + destruct (He b s Hb) as (sb & Hb' & Hsub).
      destruct (Hsym b a sb Hb') as (sa & Ha' & Hba); [by apply Hsub|].
      rewrite Hlook in Ha'. by injection Ha' as <-.
Qed.

Lemma conflict_make_symmetrizes_witness :
  unshared one_way /\ closed (contents one_way one_way_sets)
  /\ exists h',
      instructions_registry.conflict_make one_way one_way_sets = (Return one_way, h')
      /\ symmetric (contents one_way h') /\ reflexive (contents one_way h')
      /\ dom (contents one_way h') = dom (contents one_way one_way_sets).
Proof.
  split; [exact one_way_unshared|]. split; [exact one_way_closed|].
  destruct (conflict_make_symmetrizes one_way one_way_sets one_way_unshared one_way_closed)
    as (h' & Hrun & Hsym & Hrefl & Hdom & _).
  by exists h'.
Defined.

(** C3, as the specification states it, fails.  The call changes the sets of
    the dictionary it is given; on a dictionary that names an identifier
    without an entry it raises [KeyError]; and when two keys share a set
    object, the dictionary naming only its keys, the call may raise
    [RuntimeError], since the set that the loop iterates over grows, as for
    [s = {'b'}] in [{'a': s, 'b': s}], or return a table that is not
    symmetric, as for [s = {'a', 'b'}] in [{'a': s, 'b': s, 'c': {'a'}}]
    with the keys taken in the order b, a, c: the set of b then holds c, and
    the set of c does not hold b. *)
Lemma conflict_make_updates_its_argument :
  (instructions_registry.conflict_make one_way one_way_sets
   = (Return one_way, both_ways_sets)
   /\ both_ways_sets <> one_way_sets)
  /\ instructions_registry.conflict_make dangling dangling_sets
     = (Raise (KeyError "b"), dangling_sets)
  /\ (closed (contents shared_pair shared_pair_sets)
      /\ instructions_registry.conflict_make shared_pair shared_pair_sets
         = (Raise RuntimeError, <[1%positive := {["a"; "b"]}]> ∅))
  /\ (closed (contents shared_triple shared_triple_sets)
      /\ exists h',
          @instructions_registry.conflict_make reversed_order
            shared_triple shared_triple_sets
          = (Return shared_triple, h')
          /\ contents shared_triple h' !! "b"%string = Some {["a"; "b"; "c"]}
          /\ contents shared_triple h' !! "c"%string = Some {["a"; "c"]}
          /\ ~ symmetric (contents shared_triple h')).
Proof.
  split; [split|split; [|split]].
  - by vm_compute.
  - intros Heq. apply (f_equal (fun m => m !! 2%positive)) in Heq.
    vm_compute in Heq. discriminate.
  - by vm_compute.
  - split; [apply (bool_decide_unpack _); by vm_compute|by vm_compute].
  - split; [apply (bool_decide_unpack _); by vm_compute|].
    exists (<[1%positive := {["a"; "b"; "c"]}]> (<[2%positive := {["a"; "c"]}]> ∅)).
    split; [by vm_compute|]. split; [by vm_compute|]. split; [by vm_compute|].
    intros Hsym.
    destruct (Hsym "b"%string "c"%string {["a"; "b"; "c"]}) as (sc & Hc & Hb).
    + by vm_compute.
    + set_unfold. tauto.
    + assert (Hsc : sc = {["a"; "c"]}) by (vm_compute in Hc; by injection Hc as <-).
      subst sc. set_unfold. destruct Hb as [Hb|Hb]; discriminate.
Qed.

(** C9, as the code has it.  On a dictionary in which no two keys share a
    set object, a second call leaves the sets as the first call has left
    them, and raises what the first call has raised: the two calls in a row
    have the outcome of one call.  When the dictionary names only its keys,
    both calls end. *)
Theorem conflict_make_idempotent `{instructions_registry.IterationOrder}
  (conflicts : gmap string instructions_registry.loc) (h : instructions_registry.heap) :
  unshared conflicts ->
  (_ ← instructions_registry.conflict_make conflicts;
   instructions_registry.conflict_make conflicts) h
  = instructions_registry.conflict_make conflicts h
  /\ (closed (contents conflicts h) ->
      exists h',
        instructions_registry.conflict_make conflicts h = (Return conflicts, h')
        /\ instructions_registry.conflict_make conflicts h' = (Return conflicts, h')).
Proof.
  intros Hunshared.
  assert (Hfixed : forall r h',
            instructions_registry.conflict_make conflicts h = (Return r, h') ->
            instructions_registry.conflict_make conflicts h' = (Return conflicts, h')).
  { intros r h' Hrun.
    destruct (conflict_make_follows conflicts h Hunshared) as (h1 & Hnew & Hcontents).
    rewrite Hrun in Hnew.
    destruct (@owned.conflict_make (owned_order conflicts) (contents conflicts h))
      as [[[]|e] T'] eqn:Htable; simpl in Hnew, Hcontents; [|discriminate].
    injection Hnew as _ ->. rewrite <- Hcontents in Htable.
    apply conflict_make_inv in Htable as (Hs & _). by apply conflict_make_settled. }
  split.
  - unfold mbind, instructions_registry.M_bind.
    destruct (instructions_registry.conflict_make conflicts h) as [[r|e] h'] eqn:Hrun;
      [|done].
    rewrite (Hfixed r h' eq_refl).
    destruct (conflict_make_follows conflicts h Hunshared) as (h1 & Hnew & _).
    rewrite Hrun in Hnew.
    destruct (owned.conflict_make (contents conflicts h)).1; [|discriminate].
    by injection Hnew as -> _.
  - intros Hclosed.
    destruct (conflict_make_returns conflicts h Hunshared Hclosed) as (h' & Hrun & _).
    exists h'. split; [done|]. by apply (Hfixed conflicts).
Qed.

Lemma conflict_make_idempotent_witness :
  unshared one_way
  /\ closed (contents one_way one_way_sets)
  /\ exists h',
      instructions_registry.conflict_make one_way one_way_sets = (Return one_way, h')
      /\ instructions_registry.conflict_make one_way h' = (Return one_way, h').
Proof.
  split; [exact one_way_unshared|]. split; [exact one_way_closed|].
  exact (proj2 (conflict_make_idempotent one_way one_way_sets one_way_unshared)
           one_way_closed).
Defined.

(** C9, as the specification states it, fails: when two keys share a set
    object, a second call may change what the first call has left.  For
    [s = {'a', 'b'}] in [{'a': s, 'b': s, 'c': {'a'}}], the keys taken in the
    order b, a, c, the first call leaves c with a and c, and the second call
    adds b to the set of c. *)
Lemma conflict_make_twice_on_shared_sets :
  closed (contents shared_triple shared_triple_sets)
  /\ exists h1 h2,
      @instructions_registry.conflict_make reversed_order shared_triple shared_triple_sets
      = (Return shared_triple, h1)
      /\ @instructions_registry.conflict_make reversed_order shared_triple h1
         = (Return shared_triple, h2)
      /\ contents shared_triple h1 !! "c"%string = Some {["a"; "c"]}
      /\ contents shared_triple h2 !! "c"%string = Some {["a"; "b"; "c"]}
      /\ h2 <> h1.
Proof.
  split; [apply (bool_decide_unpack _); by vm_compute|].
  exists (<[1%positive := {["a"; "b"; "c"]}]> (<[2%positive := {["a"; "c"]}]> ∅)),
    (<[1%positive := {["a"; "b"; "c"]}]> (<[2%positive := {["a"; "b"; "c"]}]> ∅)).
  split; [by vm_compute|]. split; [by vm_compute|].
  split; [by vm_compute|]. split; [by vm_compute|].
  intros Heq. apply (f_equal (fun m => m !! 2%positive)) in Heq.
  vm_compute in Heq. discriminate.
Qed.


(** * Further properties of the code *)

(** ** [conflict_make]: when it raises, and what its result depends on *)

Section conflict_make_outcome.
Import instructions_registry.
Import owned.
Context `{Order}.

(** The inner loop, when it raises: the lookup of an element that is not a
    key has failed. *)
Lemma inner_loop_raises (ks : list string) (key : string) (st st' : table) (e : exn) :
  for_each ks (fun k => add k key) st = (Raise e, st') ->
  exists k, e = KeyError k /\ k ∈ ks /\ (k ∉ dom st) /\ dom st' = dom st.
Proof.
  revert st. induction ks as [|k ks IH]; intros st Hrun; [discriminate|].
  rewrite for_each_cons in Hrun. unfold add at 1 in Hrun.
  destruct (st !! k) as [s|] eqn:Hk.
  - apply IH in Hrun as (k' & -> & Hin & Hout & Hdom).
    assert (Hsame : dom (<[k := s ∪ {[key]}]> st) = dom st).
    { rewrite dom_insert_L. apply set_eq. intros x.
      rewrite elem_of_union, elem_of_singleton.
      split; [intros [-> | ?]; [by apply elem_of_dom|done]|by right]. }
    rewrite Hsame in Hout, Hdom. exists k'.
    split; [done|]. split; [by right|]. by split.
  - injection Hrun as <- <-. exists k.
    split; [done|]. split; [by left|]. split; [by apply not_elem_of_dom|done].
Qed.

(** One round of the outer loop, when it raises: the key of the round has
    its set, so the failure is that of the inner loop. *)
Lemma visit_raises (key : string) (s : gset string) (st st' : table) (e : exn) :
  st !! key = Some s -> visit key st = (Raise e, st') ->
  exists k, e = KeyError k /\ k ∈ s /\ (k ∉ dom st) /\ dom st' = dom st.
Proof.
  intros Hkey Hrun. unfold visit, mbind, M_bind, getitem in Hrun. rewrite Hkey in Hrun.
  destruct (for_each (set_elements key s) _ st) as [[[]|e'] st1] eqn:Hinner.
  - apply inner_loop_inv in Hinner as [_ Hlook].
    unfold add in Hrun. rewrite Hlook, Hkey in Hrun. discriminate.
  - injection Hrun as <- <-.
    apply inner_loop_raises in Hinner as (k & -> & Hin%(elem_of_set_elements key) & Hout & Hdom).
    by exists k.
Qed.

(** The outer loop, when it raises. *)
Lemma outer_loop_raises (T : table) (keys : list string) (st st' : table) (e : exn) :
  (forall key, key ∈ keys -> key ∈ dom st) ->
  stems_from T st -> extends T st ->
  for_each keys visit st = (Raise e, st') ->
  exists k a s, e = KeyError k /\ T !! a = Some s /\ k ∈ s /\ (k ∉ dom T) /\ dom st' = dom T.
Proof.
  revert st. induction keys as [|key keys IH]; intros st Hkeys Hf He Hrun; [discriminate|].
  rewrite for_each_cons in Hrun.
  assert (key ∈ dom st) as [s Hkey]%elem_of_dom by (apply Hkeys; by left).
  destruct (visit key st) as [[[]|e'] st1] eqn:Hvisit.
  - assert (Hs : settled [] st) by by intros y ?%elem_of_nil.
    destruct (visit_step T [] key st st1 Hvisit Hs Hf He) as (_ & Hf1 & He1).
    apply (IH st1); [|done..].
    intros k Hk. rewrite (visit_dom _ _ _ Hvisit). apply Hkeys. by right.
  - injection Hrun as <- <-.
    destruct (visit_raises key s st st1 e' Hkey Hvisit) as (k & -> & Hin & Hout & Hdom).
    destruct He as [HdomT _]. rewrite HdomT in Hout, Hdom.
    destruct (Hf key s k Hkey Hin) as [-> | [(s0 & Hs0 & Hk0) | (s0 & Hs0 & _)]].
    + exfalso. apply Hout. rewrite <- HdomT. by apply elem_of_dom.
    + by exists k, key, s0.
    + exfalso. apply Hout. by apply elem_of_dom.
Qed.

(** A call that ends has been given a table that names only its keys. *)
Lemma conflict_make_returns_closed (T T' : table) :
  conflict_make T = (Return (), T') -> closed T.
Proof.
  intros (Hs & _ & [Hdom He])%conflict_make_inv. apply settled_closed in Hs.
  intros a s Ha. destruct (He a s Ha) as (s' & Ha' & Hsub).
  pose proof (Hs a s' Ha') as Hsub'. simpl in Hsub'. rewrite Hdom in Hsub'.
  by etrans.
Qed.

(** The conflicts of the table that a call leaves. *)
Lemma conflict_make_lookup (T T' : table) (a b : string) (s' : gset string) :
  conflict_make T = (Return (), T') -> T' !! a = Some s' ->
  b ∈ s' <->
  b = a \/ (exists s, T !! a = Some s /\ b ∈ s) \/ (exists s, T !! b = Some s /\ a ∈ s).
Proof.
  intros (Hs & Hf & [Hdom He])%conflict_make_inv Hlook.
  pose proof (settled_symmetric T' Hs) as Hsym.
  pose proof (settled_reflexive T' Hs) as Hrefl.
  split.
  - by apply Hf.
  - intros [->|[(s & Ha & Hb)|(s & Hb & Ha)]].
    + by apply (Hrefl a).
    + destruct (He a s Ha) as (s'' & Ha' & Hsub).
      rewrite Hlook in Ha'. injection Ha' as <-. by apply Hsub.
    + destruct (He b s Hb) as (sb & Hb' & Hsub).
      destruct (Hsym b a sb Hb') as (sa & Ha' & Hba); [by apply Hsub|].
      rewrite Hlook in Ha'. by injection Ha' as <-.
Qed.

End conflict_make_outcome.

Section raises.
Import instructions_registry.
Context `{IterationOrder}.
Variable conflicts : gmap string loc.

(** What the loops raise, shared sets or not: the [KeyError] of a lookup, or
    the [RuntimeError] of the iterator. *)
Lemma iterate_raises (key : string) (l : loc) (used : nat) (ks : list string)
  (h h' : heap) (e : exn) :
  iterate l used ks (fun k => sk ← getitem conflicts k; set_add sk key) h = (Raise e, h') ->
  e = RuntimeError \/ exists k, e = KeyError k /\ k ∉ dom conflicts.
Proof.
  revert h. induction ks as [|k ks IH]; intros h; cbn [iterate];
    case_decide; try (intros [= <- <-]; by left).
  rewrite add_on_heap. destruct (conflicts !! k) as [lk|] eqn:Hk; [apply IH|].
  intros [= <- <-]. right. exists k. split; [done|]. by apply not_elem_of_dom.
Qed.

Lemma visit_raises_only (key : string) (h h' : heap) (e : exn) :
  visit conflicts key h = (Raise e, h') ->
  e = RuntimeError \/ exists k, e = KeyError k /\ k ∉ dom conflicts.
Proof.
  rewrite visit_on_heap. destruct (conflicts !! key) as [l|] eqn:Hkey.
  - destruct (iterate _ _ _ _ h) as [[[]|e'] h1] eqn:Hinner.
    + by rewrite add_on_heap, Hkey.
    + intros [= <- <-]. by eapply iterate_raises.
  - intros [= <- <-]. right. exists key. split; [done|]. by apply not_elem_of_dom.
Qed.

Lemma outer_loop_raises_only (keys : list string) (h h' : heap) (e : exn) :
  for_each keys (visit conflicts) h = (Raise e, h') ->
  e = RuntimeError \/ exists k, e = KeyError k /\ k ∉ dom conflicts.
Proof.
  revert h. induction keys as [|key keys IH]; intros h; [discriminate|].
  rewrite for_each_cons. destruct (visit conflicts key h) as [[[]|e'] h1] eqn:Hvisit;
    [apply IH|].
  intros [= <- <-]. by eapply visit_raises_only.
Qed.

End raises.

(** X1. On a dictionary in which no two keys share a set object,
    [conflict_make] ends exactly when every identifier of a set is a key.
    Otherwise it raises [KeyError], for an identifier that a set of the
    argument holds and that is not a key. *)
Theorem conflict_make_raises_KeyError `{instructions_registry.IterationOrder}
  (conflicts : gmap string instructions_registry.loc) (h : instructions_registry.heap) :
  unshared conflicts ->
  ((exists h', instructions_registry.conflict_make conflicts h = (Return conflicts, h'))
   <-> closed (contents conflicts h))
  /\ forall e h', instructions_registry.conflict_make conflicts h = (Raise e, h') ->
       exists k a s,
         e = KeyError k /\ contents conflicts h !! a = Some s /\ k ∈ s
         /\ k ∉ dom conflicts.
Proof.
  intros Hunshared.
  destruct (conflict_make_follows conflicts h Hunshared) as (h1 & Hnew & Hcontents).
  destruct (@owned.conflict_make (owned_order conflicts) (contents conflicts h))
    as [[[]|e1] T1] eqn:Htable; simpl in Hnew, Hcontents.
  - split; [|intros e h' Hrun; congruence].
    split; [intros _; by eapply conflict_make_returns_closed|]. intros _. by exists h1.
  - split.
    + split; [intros [h' Hrun]; congruence|].
      intros [T' Hrun]%(@conflict_make_ok (owned_order conflicts)). congruence.
    + intros e h' Hrun. rewrite Hrun in Hnew. injection Hnew as -> ->.
      unfold owned.conflict_make in Htable.
      destruct (outer_loop_raises _ _ _ _ e1
                  (fun key Hin => proj1 (elem_of_dict_keys key _) Hin)
                  (stems_from_refl _) (extends_refl _) Htable)
        as (k & a & s & -> & Ha & Hk & Hout & _).
      exists k, a, s. rewrite contents_dom in Hout. by repeat split.
Qed.

Lemma conflict_make_raises_KeyError_witness :
  unshared dangling
  /\ exists k a s,
      contents dangling dangling_sets !! a = Some s /\ k ∈ s /\ k ∉ dom dangling.
Proof.
  assert (Hunshared : unshared dangling).
  { intros k1 k2 l H1 H2. unfold dangling in H1, H2.
    rewrite !lookup_insert_Some, lookup_empty in H1, H2.
    destruct H1 as [[<- _]|[_ ?]]; [|done]. by destruct H2 as [[<- _]|[_ ?]]. }
  split; [exact Hunshared|].
  destruct (proj2 (conflict_make_raises_KeyError dangling dangling_sets Hunshared)
              (KeyError "b") dangling_sets) as (k & a & s & _ & Ha & Hk & Hout).
  - by vm_compute.
  - by exists k, a, s.
Defined.

(** X2. On a dictionary in which no two keys share a set object and every
    identifier of a set is a key, the table that [conflict_make] leaves does
    not depend on the order in which the dictionary gives its keys and the
    sets their elements. *)
Theorem conflict_make_order_independent
  (order1 order2 : instructions_registry.IterationOrder)
  (conflicts : gmap string instructions_registry.loc) (h : instructions_registry.heap) :
  unshared conflicts -> closed (contents conflicts h) ->
  exists h1 h2,
    @instructions_registry.conflict_make order1 conflicts h = (Return conflicts, h1)
    /\ @instructions_registry.conflict_make order2 conflicts h = (Return conflicts, h2)
    /\ contents conflicts h1 = contents conflicts h2.
Proof.
  intros Hunshared Hclosed.
  destruct (@conflict_make_returns order1 conflicts h Hunshared Hclosed)
    as (h1 & Hrun1 & Htable1).
  destruct (@conflict_make_returns order2 conflicts h Hunshared Hclosed)
    as (h2 & Hrun2 & Htable2).
  exists h1, h2. split; [done|]. split; [done|]. apply map_eq. intros a.
  destruct (contents conflicts h1 !! a) as [s1|] eqn:Ha1.
  - assert (a ∈ dom (contents conflicts h2)) as [s2 Ha2]%elem_of_dom
      by (rewrite contents_dom, <- (contents_dom conflicts h1); by apply elem_of_dom).
    rewrite Ha2. f_equal. apply set_eq. intros b.
    rewrite (conflict_make_lookup _ _ a b s1 Htable1 Ha1).
    by rewrite (conflict_make_lookup _ _ a b s2 Htable2 Ha2).
  - symmetry. apply not_elem_of_dom.
    rewrite contents_dom, <- (contents_dom conflicts h1). by apply not_elem_of_dom.
Qed.

Lemma conflict_make_order_independent_witness :
  unshared one_way /\ closed (contents one_way one_way_sets)
  /\ exists h1 h2,
      @instructions_registry.conflict_make reversed_order one_way one_way_sets
      = (Return one_way, h1)
      /\ @instructions_registry.conflict_make instructions_registry.elements_order
           one_way one_way_sets
         = (Return one_way, h2)
      /\ contents one_way h1 = contents one_way h2.
Proof.
  split; [exact one_way_unshared|]. split; [exact one_way_closed|].
  exact (conflict_make_order_independent reversed_order
           instructions_registry.elements_order one_way one_way_sets
           one_way_unshared one_way_closed).
Defined.

(** X3. Whatever the dictionary, with shared sets or without,
    [conflict_make] raises nothing but [KeyError], for an identifier that is
    not a key, and [RuntimeError], when a set changes size while a loop
    iterates over it; by X1 the latter needs two keys that share a set. *)
Theorem conflict_make_raises_nothing_else `{instructions_registry.IterationOrder}
  (conflicts : gmap string instructions_registry.loc)
  (h h' : instructions_registry.heap) (e : exn) :
  instructions_registry.conflict_make conflicts h = (Raise e, h') ->
  e = RuntimeError \/ exists k, e = KeyError k /\ k ∉ dom conflicts.
Proof.
  unfold instructions_registry.conflict_make, mbind, instructions_registry.M_bind.
  destruct (instructions_registry.for_each _ _ h) as [[[]|e'] h1] eqn:Hrun; [done|].
  intros [= <- <-]. by eapply outer_loop_raises_only.
Qed.

Lemma conflict_make_raises_nothing_else_witness :
  instructions_registry.conflict_make shared_pair shared_pair_sets
  = (Raise RuntimeError, <[1%positive := {["a"; "b"]}]> ∅)
  /\ (RuntimeError = RuntimeError
      \/ exists k, RuntimeError = KeyError k /\ k ∉ dom shared_pair).
Proof.
  assert (Hrun : instructions_registry.conflict_make shared_pair shared_pair_sets
                 = (Raise RuntimeError, <[1%positive := {["a"; "b"]}]> ∅))
    by by vm_compute.
  split; [exact Hrun|].
  exact (conflict_make_raises_nothing_else shared_pair shared_pair_sets _ _ Hrun).
Defined.

(** ** [INSTRUCTION_DICT] *)

Section registry.
Import instructions_registry.

(** The entries of the dictionary display. *)
Lemma registered_entry (id : string) (c : checker) :
  INSTRUCTION_DICT !! id = Some c <->
  (id, c) ∈ [
    (_KEYWORD +:+ "existence", KeywordChecker);
    (_KEYWORD +:+ "frequency", KeywordFrequencyChecker);
    (_KEYWORD +:+ "forbidden_words", ForbiddenWords);
    (_KEYWORD +:+ "letter_frequency", LetterFrequencyChecker);
    (_LANGUAGE +:+ "response_language", ResponseLanguageChecker);
    (_LENGTH +:+ "number_sentences", NumberOfSentences);
    (_LENGTH +:+ "number_paragraphs", ParagraphChecker);
    (_LENGTH +:+ "number_words", NumberOfWords);
    (_LENGTH +:+ "nth_paragraph_first_word", ParagraphFirstWordCheck);
    (_CONTENT +:+ "number_placeholders", PlaceholderChecker);
    (_CONTENT +:+ "postscript", PostscriptChecker);
    (_FORMAT +:+ "number_bullet_lists", BulletListChecker);
    (_FORMAT +:+ "constrained_response", ConstrainedResponseChecker);
    (_FORMAT +:+ "number_highlighted_sections", HighlightSectionChecker);
    (_FORMAT +:+ "multiple_sections", SectionChecker);
    (_FORMAT +:+ "json_format", JsonFormat);
    (_FORMAT +:+ "title", TitleChecker);
    (_COMBINATION +:+ "two_responses", TwoResponsesChecker);
    (_COMBINATION +:+ "repeat_prompt", RepeatPromptThenAnswer);
    (_STARTEND +:+ "end_checker", EndChecker);
    (_CHANGE_CASES +:+ "capital_word_frequency", CapitalWordFrequencyChecker);
    (_CHANGE_CASES +:+ "english_capital", CapitalLettersEnglishChecker);
    (_CHANGE_CASES +:+ "english_lowercase", LowercaseLettersEnglishChecker);
    (_PUNCTUATION +:+ "no_comma", CommaChecker);
    (_STARTEND +:+ "quotation", QuotationChecker)
  ].
Proof.
  symmetry. apply elem_of_list_to_map.
  apply (bool_decide_unpack _). by vm_compute.
Qed.

End registry.

(** X4. The registry gives each of its 25 identifiers a class of its own: no
    two identifiers share a checker class, and the classes that have an
    identifier are all those of [instructions.py] but
    [ConstrainedStartChecker]. *)
Theorem registry_one_id_per_class :
  (forall (id1 id2 : string) (c : instructions_registry.checker),
     instructions_registry.INSTRUCTION_DICT !! id1 = Some c ->
     instructions_registry.INSTRUCTION_DICT !! id2 = Some c -> id1 = id2)
  /\ forall c : instructions_registry.checker,
       (exists id, instructions_registry.INSTRUCTION_DICT !! id = Some c)
       <-> c <> instructions_registry.ConstrainedStartChecker.
Proof.
  split.
  - intros id1 id2 c H1%registered_entry H2%registered_entry.
    rewrite !elem_of_cons, elem_of_nil in H1, H2.
    destruct c;
      repeat match goal with
             | H : _ \/ _ |- _ => destruct H as [H|H]
             | H : False |- _ => destruct H
             | H : (_, _) = (_, _) |- _ => first [discriminate H | injection H as ->]
             end; reflexivity.
  - intros c. split.
    + intros [id Hreg%registered_entry] ->.
      rewrite !elem_of_cons, elem_of_nil in Hreg.
      repeat match goal with
             | H : _ \/ _ |- _ => destruct H as [H|H]
             | H : False |- _ => destruct H
             | H : (_, _) = (_, _) |- _ => discriminate H
             end.
    + intros Hc. destruct c; try (by destruct Hc);
        eexists; apply registered_entry; rewrite !elem_of_cons;
        repeat first [left; reflexivity | right].
Qed.

(** ** More on the built-in methods *)

Section PyStr_more.
Import PyStr.

Lemma contains_complete (sub : pystr) (a b : pystr) : contains sub (a ++ sub ++ b) = true.
Proof.
  induction a as [|c a IH].
  - simpl app. destruct (sub ++ b) eqn:Heq; unfold contains; fold contains;
      rewrite <- Heq, startswith_app; reflexivity.
  - simpl app. unfold contains; fold contains. rewrite IH. apply orb_true_r.
Qed.

Lemma contains_iff (sub s : pystr) :
  contains sub s = true <-> exists a b, s = a ++ sub ++ b.
Proof.
  split; [apply contains_spec|]. intros (a & b & ->). apply contains_complete.
Qed.

(** What [strip] removes is whitespace on either side. *)
Lemma lstrip_by_decompose p (s : pystr) :
  exists a, s = a ++ lstrip_by p s /\ forallb p a = true.
Proof.
  induction s as [|c s (a & Heq & Ha)]; [by exists []|].
  simpl. destruct (p c) eqn:Hc.
  - exists (c :: a). simpl. rewrite Hc, Ha. split; [by f_equal|done].
  - by exists [].
Qed.

Lemma rstrip_by_decompose p (s : pystr) :
  exists b, s = rstrip_by p s ++ b /\ forallb p b = true.
Proof.
  unfold rstrip_by. destruct (lstrip_by_decompose p (rev s)) as (a & Heq & Ha).
  exists (rev a). rewrite forallb_rev. split; [|done].
  rewrite <- rev_app_distr, <- Heq. by rewrite rev_involutive.
Qed.

Lemma strip_by_decompose p (s : pystr) :
  exists a b, s = a ++ strip_by p s ++ b /\ forallb p a = true /\ forallb p b = true.
Proof.
  destruct (lstrip_by_decompose p s) as (a & Heq & Ha).
  destruct (rstrip_by_decompose p (lstrip_by p s)) as (b & Heq' & Hb).
  exists a, b. unfold strip_by. by rewrite <- Heq', <- Heq.
Qed.

(** Whitespace around a text does not change what [strip] gives. *)
Lemma lstrip_by_app_l p (a s : pystr) :
  forallb p a = true -> lstrip_by p (a ++ s) = lstrip_by p s.
Proof. intros Ha. by rewrite lstrip_by_app, Ha. Qed.

Lemma rstrip_by_app_r p (s b : pystr) :
  forallb p b = true -> rstrip_by p (s ++ b) = rstrip_by p s.
Proof.
  intros Hb. unfold rstrip_by. rewrite rev_app_distr, lstrip_by_app_l; [done|].
  by rewrite forallb_rev.
Qed.

Lemma rstrip_by_all p (s : pystr) : forallb p s = true -> rstrip_by p s = [].
Proof.
  intros Hs. unfold rstrip_by. rewrite lstrip_by_all; [done|]. by rewrite forallb_rev.
Qed.

Lemma strip_by_app p (a s b : pystr) :
  forallb p a = true -> forallb p b = true ->
  strip_by p (a ++ s ++ b) = strip_by p s.
Proof.
  intros Ha Hb. unfold strip_by. rewrite lstrip_by_app_l by done.
  rewrite lstrip_by_app. destruct (forallb p s) eqn:Hs.
  - rewrite (lstrip_by_all p b Hb), (lstrip_by_all p s Hs). reflexivity.
  - by apply rstrip_by_app_r.
Qed.

(** A text that begins and ends with characters that [strip] keeps stays in
    one piece. *)
Lemma lstrip_by_keeps p (a b : pystr) c (x : pystr) :
  p c = false -> exists a', lstrip_by p (a ++ (c :: x) ++ b) = a' ++ (c :: x) ++ b.
Proof.
  intros Hc. induction a as [|d a [a' IH]].
  - exists []. simpl. by rewrite Hc.
  - simpl. destruct (p d); [by exists a'|]. by exists (d :: a).
Qed.

Lemma strip_by_keeps p (a b : pystr) c (x : pystr) d :
  p c = false -> p d = false ->
  exists a' b', strip_by p (a ++ (c :: x ++ [d]) ++ b) = a' ++ (c :: x ++ [d]) ++ b'.
Proof.
  intros Hc Hd. unfold strip_by.
  destruct (lstrip_by_keeps p a b c (x ++ [d]) Hc) as [a' ->].
  unfold rstrip_by.
  replace (rev (a' ++ (c :: x ++ [d]) ++ b))
    with (rev b ++ (d :: rev x) ++ rev (a' ++ [c])).
  - destruct (lstrip_by_keeps p (rev b) (rev (a' ++ [c])) d (rev x) Hd) as [b' ->].
    exists a', (rev b'). rewrite 2!rev_app_distr, rev_involutive.
    change (rev (d :: rev x)) with (rev (rev x) ++ [d]).
    rewrite rev_involutive, <- !app_assoc. simpl. by rewrite <- !app_assoc.
  - rewrite !rev_app_distr. simpl. rewrite !rev_app_distr. simpl.
    rewrite <- !app_assoc. simpl. by rewrite <- !app_assoc.
Qed.



(** The last element, by its negative index. *)
Lemma py_index_snoc {A} (l : list A) (a : A) : py_index (l ++ [a]) (-1) = Return a.
Proof.
  unfold py_index. rewrite length_app. simpl length.
  change (-1 <? 0) with true. cbv iota.
  replace (-1 + Z.of_nat (length l + 1)) with (Z.of_nat (length l)) by lia.
  replace ((0 <=? Z.of_nat (length l)) && (Z.of_nat (length l) <? Z.of_nat (length l + 1)))
    with true
    by (symmetry; apply andb_true_iff; split; [apply Z.leb_le|apply Z.ltb_lt]; lia).
  rewrite Nat2Z.id, lookup_app_r by lia. by rewrite Nat.sub_diag.
Qed.

End PyStr_more.

(** ** [startend:quotation] *)

(** X5. [startend:quotation] returns true exactly when the response, once
    trimmed, is a double quote, any text, and a double quote: a response that
    trims to a single quote character or to nothing gives false. *)
Theorem quotation_verdict (value : pystr) :
  exists verdict : bool,
    QuotationChecker.check_following value = Return (PyBool verdict)
    /\ (verdict = true <->
        exists middle, PyStr.strip value = [DQUOTE] ++ middle ++ [DQUOTE]).
Proof.
  unfold QuotationChecker.check_following.
  destruct (PyStr.strip value) as [|c rest] eqn:Hstrip.
  { exists false. split; [reflexivity|]. split; [done|]. by intros [middle ?]. }
  destruct (exists_last (l := c :: rest)) as (front & d & Hlast); [done|].
  destruct front as [|c' front].
  { injection Hlast as -> ->. exists false. split; [reflexivity|].
    split; [done|]. intros [middle Heq]. by destruct middle. }
  injection Hlast as <- ->.
  replace (1 <? length (c :: front ++ [d]))%nat with true
    by (symmetry; apply Nat.ltb_lt; simpl; rewrite length_app; simpl; lia).
  change (py_index (c :: front ++ [d]) 0) with (Return (A := ascii) c).
  change (c :: front ++ [d]) with ((c :: front) ++ [d]).
  unfold mbind, result_bind. destruct (Ascii.eqb c DQUOTE) eqn:Hc.
  - rewrite py_index_snoc. exists (Ascii.eqb d DQUOTE). split; [reflexivity|].
    apply Ascii.eqb_eq in Hc as ->. rewrite Ascii.eqb_eq. split.
    + intros ->. by exists front.
    + intros [middle Heq]. simpl in Heq. injection Heq as Heq.
      by apply app_inj_tail in Heq as [_ ->].
  - exists false. split; [reflexivity|]. split; [done|].
    intros [middle Heq]. simpl in Heq. injection Heq as -> _.
    by rewrite Ascii.eqb_refl in Hc.
Qed.

(** ** [detectable_format:constrained_response] *)

(** Each option begins and ends with a character that [strip] keeps. *)
Lemma strip_keeps_option (option before after : pystr) :
  option ∈ _CONSTRAINED_RESPONSE_OPTIONS ->
  exists before' after',
    PyStr.strip (before ++ option ++ after) = before' ++ option ++ after'.
Proof.
  unfold _CONSTRAINED_RESPONSE_OPTIONS. rewrite !elem_of_cons, elem_of_nil.
  intros [-> | [-> | [-> | []]]].
  - change (str "My answer is yes.")
      with ("M"%char :: str "y answer is yes" ++ ["."%char]).
    by apply strip_by_keeps.
  - change (str "My answer is no.")
      with ("M"%char :: str "y answer is no" ++ ["."%char]).
    by apply strip_by_keeps.
  - change (str "My answer is maybe.")
      with ("M"%char :: str "y answer is maybe" ++ ["."%char]).
    by apply strip_by_keeps.
Qed.

(** X6. [detectable_format:constrained_response] returns true exactly when
    one of the three options occurs somewhere in the response, in the case
    and with the full stop of the option; trimming the response first changes
    nothing. *)
Theorem constrained_response_verdict (value : pystr) :
  exists verdict : bool,
    ConstrainedResponseChecker.check_following value = Return (PyBool verdict)
    /\ (verdict = true <->
        exists option before after,
          option ∈ _CONSTRAINED_RESPONSE_OPTIONS
          /\ value = before ++ option ++ after).
Proof.
  eexists. split; [reflexivity|]. rewrite existsb_exists. split.
  - intros (option & Hin & (a & b & Heq)%contains_spec).
    destruct (strip_by_decompose PyStr.isspace value) as (wa & wb & Hvalue & _).
    exists option, (wa ++ a), (b ++ wb). split; [by apply list_elem_of_In|].
    rewrite Hvalue at 1. change (PyStr.strip_by PyStr.isspace value) with (PyStr.strip value).
    by rewrite Heq, <- !app_assoc.
  - intros (option & a & b & Hin & ->). exists option.
    split; [by apply list_elem_of_In|].
    destruct (strip_keeps_option option a b Hin) as (a' & b' & ->).
    apply contains_complete.
Qed.

(** ** [combination:repeat_prompt] *)




(** ** Whitespace around the response *)

(** X8. Whitespace before and after the response changes nothing for the
    checkers that trim it first: [startend:quotation],
    [detectable_format:constrained_response], [detectable_format:json_format],
    [startend:end_checker] and [combination:repeat_prompt]. *)
Theorem surrounding_whitespace_is_ignored `{Libraries} (before value after : pystr) :
  forallb PyStr.isspace before = true -> forallb PyStr.isspace after = true ->
  let padded := before ++ value ++ after in
  QuotationChecker.check_following padded = QuotationChecker.check_following value
  /\ ConstrainedResponseChecker.check_following padded
     = ConstrainedResponseChecker.check_following value
  /\ JsonFormat.check_following padded = JsonFormat.check_following value
  /\ (forall end_phrase,
        EndChecker.check_following padded end_phrase
        = EndChecker.check_following value end_phrase)
  /\ (forall prompt_to_repeat,
        RepeatPromptThenAnswer.check_following padded prompt_to_repeat
        = RepeatPromptThenAnswer.check_following value prompt_to_repeat).
Proof.
  intros Hbefore Hafter padded.
  assert (Hstrip : PyStr.strip padded = PyStr.strip value)
    by by apply strip_by_app.
  unfold QuotationChecker.check_following, ConstrainedResponseChecker.check_following,
    JsonFormat.check_following, EndChecker.check_following,
    RepeatPromptThenAnswer.check_following, RepeatPromptThenAnswer.normalize_text.
  rewrite !Hstrip. repeat split.
Qed.

Lemma surrounding_whitespace_is_ignored_witness :
  forallb PyStr.isspace (str "  ") = true
  /\ forallb PyStr.isspace [LF] = true
  /\ QuotationChecker.check_following
       (str "  " ++ ([DQUOTE] ++ str "Quoted." ++ [DQUOTE]) ++ [LF])
     = QuotationChecker.check_following ([DQUOTE] ++ str "Quoted." ++ [DQUOTE]).
Proof.
  split; [reflexivity|]. split; [reflexivity|].
  exact (proj1 (@surrounding_whitespace_is_ignored sample_libraries
                  (str "  ") ([DQUOTE] ++ str "Quoted." ++ [DQUOTE]) [LF]
                  eq_refl eq_refl)).
Defined.

(** ** The case of the response *)

Section lower.
Import PyStr.

(** Facts about the 256 characters of the model, each checked on all of
    them. *)
Ltac by_cases_on c := destruct c as [[] [] [] [] [] [] [] []]; reflexivity.

Lemma lower_char_idemp c : lower_char (lower_char c) = lower_char c.
Proof. by_cases_on c. Qed.

Lemma isspace_lower_char c : isspace (lower_char c) = isspace c.
Proof. by_cases_on c. Qed.

Lemma dquote_lower_char c : char_in [DQUOTE] (lower_char c) = char_in [DQUOTE] c.
Proof. by_cases_on c. Qed.

Lemma lower_idemp (s : pystr) : lower (lower s) = lower s.
Proof.
  unfold lower. rewrite map_map. apply map_ext. intros c. apply lower_char_idemp.
Qed.

(** Trimming and lower-casing commute, for a class of characters that
    lower-casing neither enters nor leaves. *)
Lemma lstrip_by_lower p (s : pystr) :
  (forall c, p (lower_char c) = p c) ->
  lstrip_by p (lower s) = lower (lstrip_by p s).
Proof.
  intros Hp. induction s as [|c s IH]; [reflexivity|].
  simpl. rewrite Hp. by destruct (p c).
Qed.

Lemma rev_lower (s : pystr) : rev (lower s) = lower (rev s).
Proof. unfold lower. symmetry. apply map_rev. Qed.

Lemma strip_by_lower p (s : pystr) :
  (forall c, p (lower_char c) = p c) ->
  strip_by p (lower s) = lower (strip_by p s).
Proof.
  intros Hp. unfold strip_by, rstrip_by. rewrite lstrip_by_lower by done.
  by rewrite rev_lower, lstrip_by_lower, rev_lower.
Qed.

Lemma normalize_text_lower (s : pystr) :
  RepeatPromptThenAnswer.normalize_text (lower s)
  = RepeatPromptThenAnswer.normalize_text s.
Proof.
  unfold RepeatPromptThenAnswer.normalize_text, strip.
  by rewrite (strip_by_lower isspace) by apply isspace_lower_char; rewrite lower_idemp.
Qed.

End lower.

(** X9. The case of the response does not count for [keywords:letter_frequency],
    [detectable_content:postscript], [startend:end_checker] and
    [combination:repeat_prompt]: two responses that are the same once
    lower-cased get the same outcome, whatever the arguments. *)
Theorem case_of_the_response_is_ignored `{Libraries} (value1 value2 : pystr) :
  PyStr.lower value1 = PyStr.lower value2 ->
  (forall letter let_frequency let_relation,
     LetterFrequencyChecker.check_following value1 letter let_frequency let_relation
     = LetterFrequencyChecker.check_following value2 letter let_frequency let_relation)
  /\ (forall postscript_marker,
        PostscriptChecker.check_following value1 postscript_marker
        = PostscriptChecker.check_following value2 postscript_marker)
  /\ (forall end_phrase,
        EndChecker.check_following value1 end_phrase
        = EndChecker.check_following value2 end_phrase)
  /\ (forall prompt_to_repeat,
        RepeatPromptThenAnswer.check_following value1 prompt_to_repeat
        = RepeatPromptThenAnswer.check_following value2 prompt_to_repeat).
Proof.
  intros Heq. split; [|split; [|split]].
  - intros letter let_frequency let_relation.
    by rewrite !LetterFrequencyChecker_chain, Heq.
  - intros postscript_marker. unfold PostscriptChecker.check_following. by rewrite Heq.
  - intros end_phrase. unfold EndChecker.check_following, PyStr.strip_chars, PyStr.strip.
    rewrite <- !(strip_by_lower (PyStr.char_in [DQUOTE])) by apply dquote_lower_char.
    rewrite <- !(strip_by_lower PyStr.isspace value1) by apply isspace_lower_char.
    rewrite <- !(strip_by_lower PyStr.isspace value2) by apply isspace_lower_char.
    by rewrite Heq.
  - intros prompt_to_repeat. unfold RepeatPromptThenAnswer.check_following.
    by rewrite <- (normalize_text_lower value1), Heq, normalize_text_lower.
Qed.

Lemma case_of_the_response_is_ignored_witness :
  PyStr.lower (str "Good Bye") = PyStr.lower (str "GOOD BYE")
  /\ EndChecker.check_following (str "Good Bye") (str "bye")
     = EndChecker.check_following (str "GOOD BYE") (str "bye").
Proof.
  split; [reflexivity|].
  destruct (@case_of_the_response_is_ignored sample_libraries
              (str "Good Bye") (str "GOOD BYE") eq_refl) as (_ & _ & Hend & _).
  exact (Hend (str "bye")).
Defined.

(** ** [sorted] *)

Section sorted.
Import PyStr.

Lemma leb_refl (s : pystr) : leb s s = true.
Proof. induction s as [|c s IH]; [done|]. simpl. by rewrite N.ltb_irrefl. Qed.

Lemma leb_total (s t : pystr) : leb s t = true \/ leb t s = true.
Proof.
  revert t. induction s as [|c s IH]; intros [|d t]; simpl; try tauto.
  destruct (N.ltb_spec (N_of_ascii c) (N_of_ascii d)); [tauto|].
  destruct (N.ltb_spec (N_of_ascii d) (N_of_ascii c)); [tauto|]. apply IH.
Qed.

Lemma leb_antisym (s t : pystr) : leb s t = true -> leb t s = true -> s = t.
Proof.
  revert t. induction s as [|c s IH]; intros [|d t]; simpl; try done.
  destruct (N.ltb_spec (N_of_ascii c) (N_of_ascii d));
    destruct (N.ltb_spec (N_of_ascii d) (N_of_ascii c)); try done; try lia.
  intros Hst Hts. f_equal; [|by apply IH].
  rewrite <- (ascii_N_embedding c), <- (ascii_N_embedding d). f_equal. lia.
Qed.

Lemma leb_trans (s t u : pystr) : leb s t = true -> leb t u = true -> leb s u = true.
Proof.
  revert t u. induction s as [|c s IH]; intros [|d t] [|e u]; simpl; try done.
  destruct (N.ltb_spec (N_of_ascii c) (N_of_ascii d));
    destruct (N.ltb_spec (N_of_ascii d) (N_of_ascii e));
    destruct (N.ltb_spec (N_of_ascii c) (N_of_ascii e));
    destruct (N.ltb_spec (N_of_ascii e) (N_of_ascii c));
    destruct (N.ltb_spec (N_of_ascii d) (N_of_ascii c));
    destruct (N.ltb_spec (N_of_ascii e) (N_of_ascii d));
    try done; try lia.
  apply IH.
Qed.

#[local] Instance str_le_trans : Transitive str_le.
Proof. intros s t u. apply leb_trans. Qed.

#[local] Instance str_le_antisym : AntiSymm (=) str_le.
Proof. intros s t. apply leb_antisym. Qed.

Lemma insert_sorted_Permutation (s : pystr) (l : list pystr) :
  insert_sorted s l ≡ₚ s :: l.
Proof.
  induction l as [|t l IH]; [done|]. simpl. destruct (leb s t); [done|].
  rewrite IH. apply Permutation_swap.
Qed.

Lemma sorted_Permutation (l : list pystr) : sorted l ≡ₚ l.
Proof.
  induction l as [|s l IH]; [done|]. unfold sorted. simpl.
  rewrite insert_sorted_Permutation. by f_equiv.
Qed.

Lemma insert_sorted_Sorted (s : pystr) (l : list pystr) :
  Sorted str_le l -> Sorted str_le (insert_sorted s l).
Proof.
  induction l as [|t l IH]; intros Hl; simpl; [by repeat constructor|].
  destruct (leb s t) eqn:Hst.
  { constructor; [exact Hl|]. constructor. exact Hst. }
  apply Sorted_inv in Hl as [Hl Hhd]. constructor; [by apply IH|].
  assert (Hts : str_le t s).
  { unfold str_le. destruct (leb_total s t) as [Hle|Hle]; [congruence|exact Hle]. }
  destruct l as [|u l]; simpl; [by constructor|].
  apply HdRel_inv in Hhd. destruct (leb s u); by constructor.
Qed.

Lemma sorted_Sorted (l : list pystr) : Sorted str_le (sorted l).
Proof.
  induction l as [|s l IH]; [constructor|]. by apply insert_sorted_Sorted.
Qed.

(** [sorted] gives one list for all the orders of the same strings. *)
Lemma sorted_unique (l l' : list pystr) : l ≡ₚ l' -> sorted l = sorted l'.
Proof.
  intros Hperm. apply (Sorted_unique str_le); [apply sorted_Sorted..|].
  by rewrite !sorted_Permutation.
Qed.

Lemma elem_of_sorted_iff (x : pystr) (l : list pystr) : x ∈ sorted l <-> x ∈ l.
Proof. by rewrite sorted_Permutation. Qed.

End sorted.

(** ** [keywords:existence] and [keywords:forbidden_words] *)

Section keywords.
Context `{Libraries}.

(** The loop of [keywords:forbidden_words] when every word compiles. *)
Lemma search_words_compiling (words : list pystr) (value : pystr) :
  (forall word, word ∈ words -> re_compiles (str "\b" ++ word ++ str "\b") = true) ->
  ForbiddenWords.search_words words value
  = Return (PyBool (negb (existsb (fun word =>
                                     re_search (str "\b" ++ word ++ str "\b")
                                       [Re.IGNORECASE] value)
                            words))).
Proof.
  induction words as [|word words IH]; intros Hcompile; [reflexivity|].
  cbn [ForbiddenWords.search_words existsb].
  rewrite (Hcompile word) by by left.
  destruct (re_search _ _ value); [reflexivity|].
  apply IH. intros w Hw. apply Hcompile. by right.
Qed.

Lemma forbidden_words_sorted_set (words : list pystr) (word : pystr) :
  word ∈ PyStr.sorted (remove_dups words) <-> word ∈ words.
Proof. by rewrite elem_of_sorted_iff, elem_of_remove_dups. Qed.

End keywords.

(** X10. [keywords:existence] returns true exactly when every keyword is found
    in the response as a whole word, whatever the case; so the verdict
    depends on the set of the keywords only, and an empty list of keywords is
    satisfied by every response. *)
Theorem keyword_existence_verdict `{Libraries} (value : pystr) (keywords : list pystr) :
  exists verdict : bool,
    KeywordChecker.check_following value keywords = Return (PyBool verdict)
    /\ (verdict = true <->
        forall keyword, keyword ∈ keywords ->
          re_search (str "\b" ++ Re.escape keyword ++ str "\b") [Re.IGNORECASE] value
          = true).
Proof.
  eexists. split; [reflexivity|]. rewrite forallb_forall. split.
  - intros Hall keyword Hin. apply Hall, list_elem_of_In. by apply elem_of_sorted_iff.
  - intros Hall keyword Hin%list_elem_of_In. rewrite elem_of_sorted_iff in Hin.
    by apply Hall.
Qed.

(** X11. When every forbidden word compiles as a pattern,
    [keywords:forbidden_words] returns true exactly when none of the words
    is found in the response. *)
Theorem forbidden_words_verdict `{Libraries} (value : pystr)
  (forbidden_words : list pystr) :
  (forall word, word ∈ forbidden_words ->
     re_compiles (str "\b" ++ word ++ str "\b") = true) ->
  exists verdict : bool,
    ForbiddenWords.check_following value forbidden_words = Return (PyBool verdict)
    /\ (verdict = true <->
        forall word, word ∈ forbidden_words ->
          re_search (str "\b" ++ word ++ str "\b") [Re.IGNORECASE] value = false).
Proof.
  intros Hcompile. unfold ForbiddenWords.check_following.
  rewrite search_words_compiling
    by (intros word Hin; rewrite forbidden_words_sorted_set in Hin; by apply Hcompile).
  eexists. split; [reflexivity|].
  rewrite negb_true_iff, <- not_true_iff_false, existsb_exists. split.
  - intros Hnone word Hin. apply not_true_iff_false. intros Hfound. apply Hnone.
    exists word. split; [|done]. by apply list_elem_of_In, forbidden_words_sorted_set.
  - intros Hnone (word & Hin%list_elem_of_In & Hfound).
    rewrite forbidden_words_sorted_set in Hin. by rewrite Hnone in Hfound.
Qed.

Lemma forbidden_words_verdict_witness :
  (forall word, word ∈ [str "cat"; str "dog"] ->
     @re_compiles sample_libraries (str "\b" ++ word ++ str "\b") = true)
  /\ exists verdict : bool,
      @ForbiddenWords.check_following sample_libraries (str "a bird") [str "cat"; str "dog"]
      = Return (PyBool verdict).
Proof.
  assert (Hcompile : forall word, word ∈ [str "cat"; str "dog"] ->
            @re_compiles sample_libraries (str "\b" ++ word ++ str "\b") = true)
    by reflexivity.
  split; [exact Hcompile|].
  destruct (@forbidden_words_verdict sample_libraries (str "a bird")
              [str "cat"; str "dog"] Hcompile) as (verdict & Hrun & _).
  by exists verdict.
Defined.

(** X12. The outcome of [keywords:forbidden_words], a verdict or the error of
    a word that does not compile, depends on the set of the forbidden words
    only: neither their order in the argument nor repetitions count, and
    neither does the order in which the set built from them gives its
    elements. *)
Theorem forbidden_words_depend_on_the_set `{Libraries} (value : pystr)
  (forbidden_words forbidden_words' : list pystr) :
  (forall word, word ∈ forbidden_words <-> word ∈ forbidden_words') ->
  ForbiddenWords.check_following value forbidden_words
  = ForbiddenWords.check_following value forbidden_words'.
Proof.
  intros Hsame. unfold ForbiddenWords.check_following. f_equal.
  apply sorted_unique. apply NoDup_Permutation; [apply NoDup_remove_dups..|].
  intros word. by rewrite !elem_of_remove_dups.
Qed.

Lemma forbidden_words_depend_on_the_set_witness :
  (forall word, word ∈ [str "dog"; str "cat"; str "dog"] <-> word ∈ [str "cat"; str "dog"])
  /\ @ForbiddenWords.check_following sample_libraries (str "a bird")
       [str "dog"; str "cat"; str "dog"]
     = @ForbiddenWords.check_following sample_libraries (str "a bird")
         [str "cat"; str "dog"].
Proof.
  assert (Hsame : forall word,
            word ∈ [str "dog"; str "cat"; str "dog"] <-> word ∈ [str "cat"; str "dog"]).
  { intros word. rewrite !elem_of_cons, elem_of_nil. tauto. }
  split; [exact Hsame|].
  exact (@forbidden_words_depend_on_the_set sample_libraries (str "a bird")
           [str "dog"; str "cat"; str "dog"] [str "cat"; str "dog"] Hsame).
Defined.

(** ** [combination:two_responses] *)

Section two_responses.
Context `{Libraries}.
Import TwoResponsesChecker.

Lemma collect_cons (len index : nat) response rest (valid : list pystr) :
  collect len index (response :: rest) valid
  = if blank response
    then if negb (index =? 0)%nat && negb (Z.of_nat index =? Z.of_nat len - 1)
         then None
         else collect len (S index) rest valid
    else collect len (S index) rest (valid ++ [response]).
Proof. reflexivity. Qed.

(** After the first part, the loop leaves with [return False] at an empty
    part that is not the last one, and it collects the other parts. *)
Lemma collect_tail (len index : nat) (responses valid : list pystr) :
  (0 < index)%nat -> (index + length responses = len)%nat ->
  collect len index responses valid
  = if existsb blank (removelast responses) then None
    else Some (valid ++ List.filter (fun response => negb (blank response)) responses).
Proof.
  revert index valid.
  induction responses as [|response rest IH]; intros index valid Hpos Hlen.
  - simpl. by rewrite app_nil_r.
  - rewrite collect_cons. simpl in Hlen.
    replace (index =? 0)%nat with false by (symmetry; apply Nat.eqb_neq; lia).
    destruct rest as [|next rest].
    + simpl in Hlen. replace (Z.of_nat index =? Z.of_nat len - 1) with true
        by (symmetry; apply Z.eqb_eq; lia).
      cbn [negb andb collect removelast existsb List.filter].
      destruct (blank response); cbn [negb]; by rewrite ?app_nil_r.
    + change (removelast (response :: next :: rest))
        with (response :: removelast (next :: rest)).
      cbn [existsb List.filter]. simpl in Hlen.
      destruct (blank response); cbn [negb orb andb].
      * replace (Z.of_nat index =? Z.of_nat len - 1) with false
          by (symmetry; apply Z.eqb_neq; lia).
        reflexivity.
      * rewrite IH by (simpl; lia). by rewrite <- app_assoc.
Qed.

Lemma collect_spec (responses : list pystr) :
  collect (length responses) 0 responses []
  = if existsb blank (interior responses) then None
    else Some (List.filter (fun response => negb (blank response)) responses).
Proof.
  destruct responses as [|first rest]; [reflexivity|].
  rewrite collect_cons. unfold interior. cbn [tail Nat.eqb negb andb List.filter].
  destruct (blank first); cbn [negb]; by rewrite collect_tail by (simpl; lia).
Qed.

End two_responses.

(** X13. [combination:two_responses] returns true exactly when no part of the
    response between two separators is empty, the parts that are not empty
    are two, and these two differ once trimmed.  An empty first part and an
    empty last part are left out. *)
Theorem two_responses_verdict `{Libraries} (value : pystr) :
  let responses := re_split (str "(?<!\*)\*{6}(?!\*)") value in
  exists verdict : bool,
    TwoResponsesChecker.check_following value = Return (PyBool verdict)
    /\ (verdict = true <->
        existsb blank (interior responses) = false
        /\ exists first second,
            List.filter (fun response => negb (blank response)) responses
            = [first; second]
            /\ PyStr.strip first <> PyStr.strip second).
Proof.
  intros responses. unfold TwoResponsesChecker.check_following.
  fold responses. rewrite collect_spec.
  destruct (existsb blank (interior responses)).
  { exists false. split; [reflexivity|]. split; [done|]. by intros [? _]. }
  destruct (List.filter _ responses) as [|first [|second [|third rest]]].
  - exists false. split; [reflexivity|]. split; [done|]. by intros (_ & ? & ? & ? & _).
  - exists false. split; [reflexivity|]. split; [done|]. by intros (_ & ? & ? & ? & _).
  - exists (negb (PyStr.eqb (PyStr.strip first) (PyStr.strip second))).
    split; [reflexivity|]. unfold PyStr.eqb.
    rewrite negb_true_iff, bool_decide_eq_false. split.
    + intros Hne. split; [done|]. by exists first, second.
    + intros (_ & first' & second' & Heq & Hne). by injection Heq as -> ->.
  - exists false. split; [reflexivity|]. split; [done|]. by intros (_ & ? & ? & ? & _).
Qed.

(** ** [detectable_content:number_placeholders] on every response *)

Section findall.
Variable m : Re.matcher.

(** Every match has what the pattern gives to all its matches. *)
Lemma findall_from_Forall (P : pystr -> Prop) :
  (forall s n, m s = Some n -> P (take n s)) ->
  forall (s : pystr) inside, Forall P (Re.findall_from m inside s).
Proof.
  intros Hm. induction s as [|c s IH]; intros inside; [constructor|].
  destruct inside as [|k]; [|apply IH].
  cbn [Re.findall_from]. destruct (m (c :: s)) as [[|n]|] eqn:Hmatch; [apply IH| |apply IH].
  constructor; [by apply Hm|apply IH].
Qed.

(** The matches do not overlap: when each of them holds the character [c],
    there are at most as many matches as the text has [c]. *)
Lemma findall_from_count (c : ascii) :
  (forall s n, m s = Some n -> c ∈ take n s) ->
  forall (s : pystr) inside,
    (length (Re.findall_from m inside s)
     <= length (List.filter (Ascii.eqb c) (drop inside s)))%nat.
Proof.
  intros Hm. induction s as [|d s IH]; intros inside; [simpl; lia|].
  destruct inside as [|k]; [|apply IH].
  cbn [Re.findall_from]. destruct (m (d :: s)) as [[|n]|] eqn:Hmatch.
  - etrans; [apply (IH 0%nat)|]. rewrite !drop_0. simpl.
    destruct (Ascii.eqb c d); simpl; lia.
  - apply Hm in Hmatch.
    rewrite drop_0, <- (take_drop (S n) (d :: s)), List.filter_app, length_app.
    change (drop (S n) (d :: s)) with (drop n s).
    cbn [length]. specialize (IH n).
    assert (1 <= length (List.filter (Ascii.eqb c) (take (S n) (d :: s))))%nat; [|lia].
    apply list_elem_of_In in Hmatch.
    assert (Hin : In c (List.filter (Ascii.eqb c) (take (S n) (d :: s))))
      by (apply filter_In; split; [done|apply Ascii.eqb_refl]).
    revert Hin. generalize (List.filter (Ascii.eqb c) (take (S n) (d :: s))).
    intros [|? ?] Hin; [destruct Hin|simpl; lia].
  - etrans; [apply (IH 0%nat)|]. rewrite !drop_0. simpl.
    destruct (Ascii.eqb c d); simpl; lia.
Qed.

End findall.

(** The lazy run: it stops at the first closing character and does not pass
    a newline. *)
Lemma lazy_until_spec (close : ascii) (s : pystr) (n : nat) :
  Re.lazy_until close s = Some n ->
  exists inner rest,
    s = inner ++ close :: rest /\ n = S (length inner)
    /\ (close ∉ inner) /\ LF ∉ inner.
Proof.
  revert n. induction s as [|c s IH]; intros n Hrun; [discriminate|].
  cbn [Re.lazy_until] in Hrun. destruct (Ascii.eqb c close) eqn:Hclose.
  - apply Ascii.eqb_eq in Hclose as ->. injection Hrun as <-.
    exists [], s. repeat split; apply not_elem_of_nil.
  - destruct (Ascii.eqb c LF) eqn:Hnewline; [discriminate|].
    destruct (Re.lazy_until close s) as [k|]; [|discriminate].
    injection Hrun as <-. destruct (IH k eq_refl) as (inner & rest & -> & -> & Hc & Hn).
    apply Ascii.eqb_neq in Hclose, Hnewline.
    exists (c :: inner), rest. repeat split.
    + intros [Heq|Hin]%elem_of_cons; [by subst|done].
    + intros [Heq|Hin]%elem_of_cons; [by subst|done].
Qed.

Lemma brackets_spec (s : pystr) (n : nat) :
  Re.brackets s = Some n ->
  exists inner,
    take n s = str "[" ++ inner ++ str "]"
    /\ ("]"%char ∉ inner) /\ LF ∉ inner.
Proof.
  destruct s as [|c s]; [discriminate|]. unfold Re.brackets.
  destruct (Ascii.eqb c "[") eqn:Hopen; [|discriminate].
  apply Ascii.eqb_eq in Hopen as ->.
  destruct (Re.lazy_until "]" s) as [k|] eqn:Hrun; [|discriminate].
  intros [= <-]. apply lazy_until_spec in Hrun as (inner & rest & -> & -> & Hc & Hn).
  exists inner. split; [|done]. simpl. f_equal.
  change (inner ++ "]"%char :: rest) with (inner ++ ["]"%char] ++ rest).
  rewrite app_assoc, take_app_length'; [done|]. rewrite length_app. simpl. lia.
Qed.

(** X14. For every response, each placeholder that
    [detectable_content:number_placeholders] counts is an opening bracket, a
    run of characters without a closing bracket or a newline, and a closing
    bracket; the placeholders do not overlap, so there are at most as many
    of them as the response has opening brackets, and as it has closing
    brackets. *)
Theorem placeholders_are_bracketed (value : pystr) (num_placeholders : Z) :
  let placeholders := Re.findall Re.brackets value in
  PlaceholderChecker.check_following value num_placeholders
  = Return (PyBool (Z.of_nat (length placeholders) >=? num_placeholders))
  /\ Forall (fun placeholder =>
               exists inner,
                 placeholder = str "[" ++ inner ++ str "]"
                 /\ ("]"%char ∉ inner) /\ LF ∉ inner)
       placeholders
  /\ (length placeholders <= length (List.filter (Ascii.eqb "[") value))%nat
  /\ (length placeholders <= length (List.filter (Ascii.eqb "]") value))%nat.
Proof.
  intros placeholders. split; [reflexivity|]. split; [|split].
  - apply findall_from_Forall. apply brackets_spec.
  - apply (findall_from_count Re.brackets "[" ) with (inside := 0%nat).
    intros s n (inner & -> & _)%brackets_spec. by left.
  - apply (findall_from_count Re.brackets "]") with (inside := 0%nat).
    intros s n (inner & -> & _)%brackets_spec.
    simpl. right. apply elem_of_app. right. by left.
Qed.

(** ** [length_constraints:number_paragraphs] on a response without a divider *)

Lemma divider_contains (s : pystr) (n : nat) :
  Re.divider s = Some n -> PyStr.contains (str "***") s = true.
Proof.
  intros [_ (before & after & Heq & _)]%divider_sound.
  rewrite <- (take_drop n s), Heq, <- !app_assoc. apply contains_complete.
Qed.

Lemma split_from_undivided (s seg : pystr) :
  PyStr.contains (str "***") s = false ->
  Re.split_from Re.divider 0 seg s = [rev seg ++ s].
Proof.
  revert seg. induction s as [|c s IH]; intros seg Hnone.
  - simpl. by rewrite app_nil_r.
  - rewrite split_from_cons_outside.
    assert (Hrest : PyStr.contains (str "***") s = false).
    { unfold PyStr.contains in Hnone; fold PyStr.contains in Hnone.
      by apply orb_false_iff in Hnone as [_ ?]. }
    destruct (Re.divider (c :: s)) as [[|n]|] eqn:Hmatch.
    + rewrite IH by done. simpl. by rewrite <- app_assoc.
    + apply divider_contains in Hmatch. congruence.
    + rewrite IH by done. simpl. by rewrite <- app_assoc.
Qed.

(** X15. A response without three asterisks in a row is one segment: it has
    one paragraph, or none when it holds nothing but whitespace, and
    [length_constraints:number_paragraphs] compares [num_paragraphs] with
    that.  The empty response has no paragraph. *)
Theorem undivided_response_is_one_paragraph (value : pystr) (num_paragraphs : Z) :
  PyStr.contains (str "***") value = false ->
  Re.split Re.divider value = [value]
  /\ ParagraphChecker.check_following value num_paragraphs
     = Return (PyBool ((if blank value then 0 else 1) =? num_paragraphs)).
Proof.
  intros Hnone.
  assert (Hsplit : Re.split Re.divider value = [value])
    by by apply (split_from_undivided value []).
  split; [done|]. unfold ParagraphChecker.check_following. rewrite Hsplit.
  rewrite count_paragraphs_cons. cbn [length Nat.eqb orb ParagraphChecker.count_paragraphs].
  by destruct (blank value).
Qed.

Lemma undivided_response_is_one_paragraph_witness :
  PyStr.contains (str "***") (str "One paragraph.") = false
  /\ ParagraphChecker.check_following (str "One paragraph.") 1 = Return (PyBool true)
  /\ ParagraphChecker.check_following [] 0 = Return (PyBool true).
Proof.
  split; [reflexivity|]. split.
  - exact (proj2 (undivided_response_is_one_paragraph (str "One paragraph.") 1 eq_refl)).
  - exact (proj2 (undivided_response_is_one_paragraph [] 0 eq_refl)).
Defined.

(** ** [length_constraints:nth_paragraph_first_word] with a paragraph number below 1 *)

(** A negative index counts from the end of the list, and raises when it
    passes the start. *)
Lemma py_index_negative {A} (l : list A) (i : Z) :
  i < 0 ->
  (i < - Z.of_nat (length l) -> py_index l i = Raise IndexError)
  /\ (- Z.of_nat (length l) <= i ->
      exists a, l !! Z.to_nat (Z.of_nat (length l) + i) = Some a
        /\ py_index l i = Return a).
Proof.
  intros Hneg. unfold py_index.
  replace (i <? 0) with true by (symmetry; apply Z.ltb_lt; lia).
  split; intros Hi.
  - replace (0 <=? i + Z.of_nat (length l)) with false
      by (symmetry; apply Z.leb_gt; lia).
    reflexivity.
  - replace ((0 <=? i + Z.of_nat (length l))
             && (i + Z.of_nat (length l) <? Z.of_nat (length l))) with true
      by (symmetry; apply andb_true_iff; split; [apply Z.leb_le|apply Z.ltb_lt]; lia).
    rewrite (Z.add_comm i).
    destruct (lookup_lt_is_Some_2 l (Z.to_nat (Z.of_nat (length l) + i))) as [a Ha];
      [lia|].
    exists a. by rewrite Ha.
Qed.

(** What the checker does with the paragraph it has taken from the list. *)
Lemma first_word_of_paragraph (paragraph : pystr) (same_count : bool)
  (first_word : pystr) :
  (let paragraph := PyStr.strip paragraph in
   if negb (PyStr.truthy paragraph)
   then Return (PyBool false)
   else
     word ← py_index (PyStr.split paragraph) 0;
     let word := PyStr.strip word in
     let word := PyStr.lstrip_chars [SQUOTE] word in
     let word := PyStr.lstrip_chars [DQUOTE] word in
     let first_word' := ParagraphFirstWordCheck.first_word_of word in
     Return (PyBool (same_count && PyStr.eqb first_word' first_word)))
  = Return (PyBool
      match head (PyStr.split paragraph) with
      | Some word => same_count && PyStr.eqb (normalized_token word) first_word
      | None => false
      end).
Proof.
  cbv zeta.
  destruct (PyStr.truthy (PyStr.strip paragraph)) eqn:Htruthy; cbn [negb].
  - pose proof (split_not_nil _ Htruthy) as Hsplit.
    pose proof (split_from_spaceless [] paragraph eq_refl) as Htokens.
    fold (PyStr.split paragraph) in Htokens.
    rewrite split_strip.
    destruct (PyStr.split paragraph) as [|word rest] eqn:Hwords; [done|].
    apply Forall_cons in Htokens as [Hword _].
    change (py_index (word :: rest) 0) with (Return word).
    cbn [mbind result_bind head]. by rewrite (strip_spaceless _ Hword), first_word_of_spec.
  - by rewrite (split_nil _ Htruthy).
Qed.

(** X16. [length_constraints:nth_paragraph_first_word] does not refuse a
    paragraph number below 1.  With [nth_paragraph] from 0 down to
    [1 - len], where [len] is the number of segments of the split, the
    negative index reads the segments from the end, 0 giving the last one;
    with [nth_paragraph <= - len] the call raises [IndexError]. *)
Theorem nth_paragraph_below_one
  (value : pystr) (num_paragraphs nth_paragraph : Z) (first_word : pystr) :
  nth_paragraph <= 0 ->
  let paragraphs := Re.split Re.blank_line value in
  let len := Z.of_nat (length paragraphs) in
  let count := Z.of_nat (length (List.filter (fun p => negb (blank p)) paragraphs)) in
  (nth_paragraph <= - len ->
   ParagraphFirstWordCheck.check_following value num_paragraphs nth_paragraph first_word
   = Raise IndexError)
  /\ (- len < nth_paragraph ->
      exists paragraph,
        paragraphs !! Z.to_nat (len + nth_paragraph - 1) = Some paragraph
        /\ ParagraphFirstWordCheck.check_following value num_paragraphs nth_paragraph
             first_word
           = Return (PyBool
               match head (PyStr.split paragraph) with
               | Some word =>
                   (count =? num_paragraphs)
                   && PyStr.eqb (normalized_token word) first_word
               | None => false
               end)).
Proof.
  intros Hnth paragraphs len count.
  unfold ParagraphFirstWordCheck.check_following. fold paragraphs.
  rewrite count_not_blank.
  pose proof (filter_blank_length paragraphs) as Hlen.
  replace (Z.of_nat (length paragraphs) - Z.of_nat (length (List.filter blank paragraphs)))
    with count by (unfold count; lia).
  replace (nth_paragraph <=? count) with true
    by (symmetry; apply Z.leb_le; unfold count; lia).
  destruct (py_index_negative paragraphs (nth_paragraph - 1)) as [Hout Hin]; [lia|].
  split.
  - intros Hlow. rewrite Hout by (fold len; lia). reflexivity.
  - intros Hhigh. destruct Hin as (paragraph & Hlook & ->); [fold len; lia|].
    exists paragraph. split.
    + rewrite <- Hlook. f_equal. fold len. f_equal. lia.
    + cbn [mbind result_bind]. apply first_word_of_paragraph.
Qed.

Lemma nth_paragraph_below_one_witness :
  0 <= 0
  /\ ParagraphFirstWordCheck.check_following
       (str "Dear all," ++ [LF; LF] ++ str "Hello there.") 2 (-2) (str "hello")
     = Raise IndexError
  /\ exists paragraph,
      Re.split Re.blank_line (str "Dear all," ++ [LF; LF] ++ str "Hello there.")
        !! 1%nat = Some paragraph
      /\ ParagraphFirstWordCheck.check_following
           (str "Dear all," ++ [LF; LF] ++ str "Hello there.") 2 0 (str "hello")
         = Return (PyBool true).
Proof.
  split; [lia|]. split.
  - apply (nth_paragraph_below_one
             (str "Dear all," ++ [LF; LF] ++ str "Hello there.") 2 (-2) (str "hello"));
      [lia|]. vm_compute. discriminate.
  - destruct (nth_paragraph_below_one
                (str "Dear all," ++ [LF; LF] ++ str "Hello there.") 2 0 (str "hello"))
      as [_ Hlast]; [lia|].
    destruct Hlast as (paragraph & Hlook & Hrun); [vm_compute; reflexivity|].
    exists paragraph. split; [exact Hlook|]. rewrite Hrun.
    vm_compute in Hlook. injection Hlook as <-. reflexivity.
Defined.

(** ** [detectable_format:json_format] on a fenced document *)

Lemma removesuffix_app (s suffix : pystr) : PyStr.removesuffix suffix (s ++ suffix) = s.
Proof.
  unfold PyStr.removesuffix.
  rewrite (proj2 (endswith_spec (s ++ suffix) suffix)) by by exists s.
  rewrite length_app, Nat.add_sub. by rewrite take_app_length.
Qed.

(** A text that begins and ends with characters that [strip] keeps is left
    as it is. *)
Lemma strip_by_fixed p c (x : pystr) d :
  p c = false -> p d = false -> PyStr.strip_by p (c :: x ++ [d]) = c :: x ++ [d].
Proof.
  intros Hc Hd. unfold PyStr.strip_by. rewrite lstrip_by_fixed by done.
  unfold PyStr.rstrip_by.
  change (c :: x ++ [d]) with ((c :: x) ++ [d]). rewrite rev_app_distr.
  change (rev [d] ++ rev (c :: x)) with (d :: rev (c :: x)).
  rewrite lstrip_by_fixed by done.
  change (d :: rev (c :: x)) with (rev [d] ++ rev (c :: x)).
  by rewrite <- rev_app_distr, rev_involutive.
Qed.

(** The text that the parser is given, for a document between an opening
    fence, with or without the name of the language, and a closing fence,
    each on a line of its own. *)
Lemma unfenced_fenced (fence body : pystr) :
  fence ∈ [str "```json"; str "```Json"; str "```JSON"; str "```"] ->
  unfenced (fence ++ [LF] ++ body ++ [LF] ++ str "```") = PyStr.strip body.
Proof.
  intros Hfence. unfold unfenced.
  assert (Hshape : exists x,
            fence ++ [LF] ++ body ++ [LF] ++ str "```"
            = "`"%char :: x ++ ["`"%char]).
  { exists (drop 1 fence ++ [LF] ++ body ++ [LF] ++ str "``").
    rewrite !elem_of_cons, elem_of_nil in Hfence.
    destruct Hfence as [-> | [-> | [-> | [-> | []]]]];
      simpl; rewrite <- !app_assoc; simpl; done. }
  destruct Hshape as (x & Hvalue).
  unfold PyStr.strip at 2. rewrite Hvalue, strip_by_fixed by done. rewrite <- Hvalue.
  assert (Hopen : PyStr.removeprefix (str "```")
                    (PyStr.removeprefix (str "```JSON")
                       (PyStr.removeprefix (str "```Json")
                          (PyStr.removeprefix (str "```json")
                             (fence ++ [LF] ++ body ++ [LF] ++ str "```"))))
                  = ([LF] ++ body ++ [LF]) ++ str "```").
  { rewrite !elem_of_cons, elem_of_nil in Hfence.
    destruct Hfence as [-> | [-> | [-> | [-> | []]]]];
      unfold PyStr.removeprefix; cbn; by rewrite <- ?app_assoc. }
  rewrite Hopen, removesuffix_app.
  by apply (strip_by_app PyStr.isspace [LF] body [LF]).
Qed.

(** X17. A document between an opening fence (three backquotes, alone or
    followed by json, Json or JSON) and a closing fence, each on its own line,
    is judged by its content: [detectable_format:json_format] gives the
    parser the trimmed text between the fences. *)
Theorem fenced_json_is_unwrapped `{Libraries} (fence body : pystr) :
  fence ∈ [str "```json"; str "```Json"; str "```JSON"; str "```"] ->
  JsonFormat.check_following (fence ++ [LF] ++ body ++ [LF] ++ str "```")
  = match json_loads (PyStr.strip body) with
    | Return _ => Return (PyBool true)
    | Raise ValueError => Return (PyBool false)
    | Raise e => Raise e
    end.
Proof.
  intros Hfence. by rewrite JsonFormat_result, unfenced_fenced.
Qed.

Lemma fenced_json_is_unwrapped_witness :
  str "```json" ∈ [str "```json"; str "```Json"; str "```JSON"; str "```"]
  /\ @JsonFormat.check_following sample_libraries
       (str "```json" ++ [LF] ++ str "{}" ++ [LF] ++ str "```")
     = Return (PyBool true).
Proof.
  assert (Hfence : str "```json"
                   ∈ [str "```json"; str "```Json"; str "```JSON"; str "```"])
    by by left.
  split; [exact Hfence|].
  exact (@fenced_json_is_unwrapped sample_libraries (str "```json") (str "{}") Hfence).
Defined.

(** ** The two case checkers together *)

(** X18. No response satisfies both [change_case:english_capital] and
    [change_case:english_lowercase]: for every response, and whatever the
    language detector does, one of the two returns false. *)
Theorem case_checkers_exclude_each_other `{Libraries} (value : pystr) :
  CapitalLettersEnglishChecker.check_following value = Return (PyBool false)
  \/ LowercaseLettersEnglishChecker.check_following value = Return (PyBool false).
Proof.
  destruct (PyStr.isupper value) eqn:Hupper.
  - right. unfold LowercaseLettersEnglishChecker.check_following,
      LowercaseLettersEnglishChecker.detection.
    by rewrite (isupper_not_islower value Hupper).
  - left. unfold CapitalLettersEnglishChecker.check_following,
      CapitalLettersEnglishChecker.detection.
    by rewrite Hupper.
Qed.

(** ** The relations of the comparator, one against the other *)

Lemma chain_less_than_at_least (window actual threshold : Z) :
  opposite_verdicts (chain window actual threshold (str "less than"))
    (chain window actual threshold (str "at least")).
Proof.
  exists (actual <? threshold). split; [reflexivity|].
  change (chain window actual threshold (str "at least"))
    with (Return (PyBool (actual >=? threshold))).
  by rewrite Z.geb_leb, Z.leb_antisym.
Qed.

Lemma chain_at_most_less_than (window actual threshold : Z) :
  chain window actual threshold (str "at most")
  = chain window actual (threshold + 1) (str "less than").
Proof.
  change (Return (PyBool (actual <=? threshold))
          = Return (PyBool (actual <? threshold + 1))).
  do 2 f_equal. destruct (Z.leb_spec actual threshold), (Z.ltb_spec actual (threshold + 1));
    (done || lia).
Qed.

(** X19. In each of the five comparator-based checkers, on every response
    and for every threshold, the relations less than and at least give
    opposite verdicts, and at most a threshold is less than the next
    integer. *)
Theorem less_than_is_the_opposite_of_at_least `{Libraries}
  (value keyword letter : pystr) (threshold : Z) :
  (opposite_verdicts
     (NumberOfSentences.check_following value threshold (str "less than"))
     (NumberOfSentences.check_following value threshold (str "at least"))
   /\ NumberOfSentences.check_following value threshold (str "at most")
      = NumberOfSentences.check_following value (threshold + 1) (str "less than"))
  /\ (opposite_verdicts
        (NumberOfWords.check_following value threshold (str "less than"))
        (NumberOfWords.check_following value threshold (str "at least"))
      /\ NumberOfWords.check_following value threshold (str "at most")
         = NumberOfWords.check_following value (threshold + 1) (str "less than"))
  /\ (opposite_verdicts
        (KeywordFrequencyChecker.check_following value keyword threshold (str "less than"))
        (KeywordFrequencyChecker.check_following value keyword threshold (str "at least"))
      /\ KeywordFrequencyChecker.check_following value keyword threshold (str "at most")
         = KeywordFrequencyChecker.check_following value keyword (threshold + 1)
             (str "less than"))
  /\ (opposite_verdicts
        (LetterFrequencyChecker.check_following value letter threshold (str "less than"))
        (LetterFrequencyChecker.check_following value letter threshold (str "at least"))
      /\ LetterFrequencyChecker.check_following value letter threshold (str "at most")
         = LetterFrequencyChecker.check_following value letter (threshold + 1)
             (str "less than"))
  /\ (opposite_verdicts
        (CapitalWordFrequencyChecker.check_following value threshold (str "less than"))
        (CapitalWordFrequencyChecker.check_following value threshold (str "at least"))
      /\ CapitalWordFrequencyChecker.check_following value threshold (str "at most")
         = CapitalWordFrequencyChecker.check_following value (threshold + 1)
             (str "less than")).
Proof.
  rewrite !NumberOfSentences_chain, !NumberOfWords_chain, !KeywordFrequencyChecker_chain,
    !LetterFrequencyChecker_chain, !CapitalWordFrequencyChecker_chain.
  repeat split; first [apply chain_less_than_at_least | apply chain_at_most_less_than].
Qed.

(** ** [keywords:letter_frequency]: what is counted *)



(** ** The checkers that ask for a number of items at least *)

Lemma fold_count_ge {A} (counted : A -> bool) (l : list A) (n : Z) :
  n <= fold_left (fun n x => if counted x then n + 1 else n) l n.
Proof.
  revert n. induction l as [|x l IH]; intros n; simpl; [lia|].
  etrans; [|apply IH]. destruct (counted x); lia.
Qed.

(** X21. For [detectable_content:number_placeholders],
    [detectable_format:number_highlighted_sections] and
    [detectable_format:multiple_sections], a response that satisfies the
    constraint for a number satisfies it for every smaller number; and every
    response has the zero placeholders and the zero highlighted sections that
    a number of 0 or less asks for. *)
Theorem lower_number_is_easier `{Libraries}
  (value section_spliter : pystr) (number number' : Z) :
  number' <= number ->
  (PlaceholderChecker.check_following value number = Return (PyBool true) ->
   PlaceholderChecker.check_following value number' = Return (PyBool true))
  /\ (HighlightSectionChecker.check_following value number = Return (PyBool true) ->
      HighlightSectionChecker.check_following value number' = Return (PyBool true))
  /\ (SectionChecker.check_following value section_spliter number = Return (PyBool true) ->
      SectionChecker.check_following value section_spliter number'
      = Return (PyBool true))
  /\ (number' <= 0 ->
      PlaceholderChecker.check_following value number' = Return (PyBool true)
      /\ HighlightSectionChecker.check_following value number' = Return (PyBool true)).
Proof.
  intros Hle.
  assert (Hmono : forall count : Z,
            Return (PyBool (count >=? number)) = Return (PyBool true) ->
            Return (PyBool (count >=? number')) = Return (PyBool true)).
  { intros count [= Hge]. do 2 f_equal. rewrite Z.geb_leb in Hge |- *.
    apply Z.leb_le in Hge. apply Z.leb_le. lia. }
  assert (Hzero : forall count : Z, 0 <= count -> number' <= 0 ->
            Return (PyBool (count >=? number')) = Return (PyBool true)).
  { intros count Hcount Hneg. do 2 f_equal. rewrite Z.geb_leb. apply Z.leb_le. lia. }
  split; [apply Hmono|]. split; [apply Hmono|]. split; [apply Hmono|].
  intros Hneg. split.
  - apply Hzero; [lia|done].
  - apply Hzero; [|done]. etrans; [|apply fold_count_ge]. apply fold_count_ge.
Qed.

Lemma lower_number_is_easier_witness :
  2 <= 3
  /\ (PlaceholderChecker.check_following (str "[a] [b] [c]") 3 = Return (PyBool true) ->
      PlaceholderChecker.check_following (str "[a] [b] [c]") 2 = Return (PyBool true)).
Proof.
  split; [lia|].
  apply (@lower_number_is_easier sample_libraries (str "[a] [b] [c]") [] 3 2). lia.
Defined.
